(** * A reverse-proxy load balancer: selection, health tracking, dispatch

    Shallow embedding of the load balancer's backend-selection and
    health-tracking engine (the latest variant of the program, the one
    with the [/healthz] probe and the SSE dashboard), and the properties
    of its specification.

    JavaScript objects are references: the registry [servers] is an array
    of references to backend objects, and the health probe's callbacks
    mutate the object they captured when the probe started.  The state
    therefore has an append-only store of backend objects and a registry
    of locations into it. *)

From stdpp Require Import base list strings gmap.
From Stdlib Require Import ZArith NArith Lia.
From Stdlib Require Import Ascii.

Local Open Scope string_scope.
Local Open Scope list_scope.
Local Open Scope nat_scope.

(** ** Outcomes of JavaScript computations *)

Inductive JsError : Type :=
  | SyntaxError  (* JSON.parse on malformed text *)
  | TypeError    (* property read on undefined, call of a non-function,
                    URL that does not parse *)
  | SystemError  (* fs.readFileSync on an unreadable file *)
  | TargetError. (* Error of proxy.web: Must provide a proper URL as target *)

Inductive Result (A : Type) : Type :=
  | Ok (a : A)
  | Throw (e : JsError).
Arguments Ok {A} a.
Arguments Throw {A} e.

(** ** Data model *)

(** An entry of [history]: the initial blank string, or a number (a
    latency in milliseconds, pushed on success; [0], pushed on failure). *)
Inductive HistEntry : Type :=
  | HBlank
  | HNum (ms : Z).

Definition down_marker : HistEntry := HNum 0.

(** An element of the array in [servers.json]. *)
Record Descriptor : Type := mkDescriptor {
  d_url : string;
  d_region : option string
}.

(** A backend object, as built by [loadServers].  The counters and the
    times are JavaScript numbers that hold integers; a counter grows by
    one per completed probe and stays far below 2^53, where those are
    exact, so they are unbounded integers here. *)
Record Backend : Type := mkBackend {
  url : string;
  region : option string;
  healthy : bool;
  responseTime : option Z;
  lastCheck : option string;
  uptime : N;
  downtime : N;
  history : list HistEntry
}.

(** A location in the store of backend objects. *)
Abbreviation loc := nat (only parsing).

(** The module-level variables [servers], [index] and [stickyMap], and the
    store of the backend objects allocated so far. *)
Record State : Type := mkState {
  heap : list Backend;
  servers : list loc;
  index : nat;
  stickyMap : gmap string string
}.

(** The objects of the registry, read through their references, in order. *)
Definition registry (st : State) : list Backend :=
  omap (fun l : loc => heap st !! l) (servers st).

Definition set_heap (h : list Backend) (st : State) : State :=
  mkState h (servers st) (index st) (stickyMap st).
Definition set_servers (ls : list loc) (st : State) : State :=
  mkState (heap st) ls (index st) (stickyMap st).
Definition set_index (i : nat) (st : State) : State :=
  mkState (heap st) (servers st) i (stickyMap st).
Definition set_stickyMap (m : gmap string string) (st : State) : State :=
  mkState (heap st) (servers st) (index st) m.

(** ** Computations over the state that may throw *)

Definition M (A : Type) : Type := State -> Result A * State.

Definition ret {A} (a : A) : M A := fun st => (Ok a, st).
Definition throw {A} (e : JsError) : M A := fun st => (Throw e, st).
Definition bind {A B} (c : M A) (k : A -> M B) : M B :=
  fun st => match c st with
            | (Ok a, st') => k a st'
            | (Throw e, st') => (Throw e, st')
            end.
Definition modify (f : State -> State) : M unit := fun st => (Ok tt, f st).
Definition gets {A} (f : State -> A) : M A := fun st => (Ok (f st), st).

Notation "'let!' x ':=' c 'in' k" := (bind c (fun x => k))
  (at level 10, x name, c at level 200, k at level 200).

(** Unfolds the plumbing of [M] in the goal. *)
Ltac run := unfold bind, ret, gets, modify, throw.

(** ** 1) loadServers and the reload watcher *)

(** What [JSON.parse(fs.readFileSync("./servers.json", "utf8"))] yields:
    the read or the parse throws, or the text is JSON but not an array (so
    [data.map] is not a function), or it is an array of descriptors. *)
Inductive ParseOutcome : Type :=
  | ParseThrows (e : JsError)
  | NotAnArray
  | Descriptors (data : list Descriptor).

Definition blank_history : list HistEntry := replicate 20 HBlank.

(** The object literal of [loadServers]: the descriptor's own properties
    are spread first, the six runtime fields are written after them. *)
Definition fresh_backend (s : Descriptor) : Backend :=
  {| url := d_url s;
     region := d_region s;
     healthy := false;
     responseTime := None;
     lastCheck := None;
     uptime := 0%N;
     downtime := 0%N;
     history := blank_history |}.

(** [loadServers()]: a new array of new objects; returns their locations. *)
Definition loadServers (input : ParseOutcome) : M (list loc) :=
  match input with
  | ParseThrows e => throw e
  | NotAnArray => throw TypeError
  | Descriptors data =>
      fun st =>
        (Ok (seq (length (heap st)) (length data)),
         set_heap (heap st ++ map fresh_backend data) st)
  end.

(** The callback of [fs.watch]: [servers = loadServers()]. *)
Definition reload (input : ParseOutcome) : M unit :=
  let! ls := loadServers input in
  modify (set_servers ls).

(** ** 2) Sticky session *)

(** JavaScript truthiness of a value that is [null] or a string. *)
Definition truthy (t : option string) : bool :=
  match t with
  | Some u => negb (bool_decide (u = EmptyString))
  | None => false
  end.

Record Request : Type := mkRequest {
  x_forwarded_for : option string;
  remoteAddress : string;
  user_agent : option string
}.

Definition or_else (a : option string) (b : string) : string :=
  if truthy a then default b a else b.

Section Fingerprint.
Variable md5_hex : string -> string.

(** The MD5 digest, in hexadecimal, of the forwarded-for header (or, when
    it is missing or empty, the peer address) followed by the user agent
    (or nothing). *)
Definition getClientId (req : Request) : string :=
  md5_hex (or_else (x_forwarded_for req) (remoteAddress req)
           +:+ or_else (user_agent req) EmptyString).
End Fingerprint.

Definition getStickyServer (clientId : string) (st : State) : option string :=
  match stickyMap st !! clientId with
  | None => None
  | Some u =>
      match List.find (fun s => bool_decide (url s = u) && healthy s)
                      (registry st) with
      | Some alive => Some (url alive)
      | None => None
      end
  end.

(** ** 3) Round-robin over the healthy backends *)

Definition alive_servers (st : State) : list Backend :=
  List.filter healthy (registry st).

Definition chooseServer : M (option string) :=
  fun st =>
    let alive := alive_servers st in
    if Nat.eqb (length alive) 0 then (Ok None, st)
    else
      match alive !! index st with
      | None => (Throw TypeError, st)   (* alive[index] is undefined *)
      | Some s =>
          (Ok (Some (url s)),
           set_index ((index st + 1) mod length alive) st)
      end.

(** ** 4) Health check *)

Definition set_healthy (b : bool) (s : Backend) : Backend :=
  mkBackend (url s) (region s) b (responseTime s) (lastCheck s)
            (uptime s) (downtime s) (history s).
Definition set_responseTime (r : option Z) (s : Backend) : Backend :=
  mkBackend (url s) (region s) (healthy s) r (lastCheck s)
            (uptime s) (downtime s) (history s).
Definition set_lastCheck (c : option string) (s : Backend) : Backend :=
  mkBackend (url s) (region s) (healthy s) (responseTime s) c
            (uptime s) (downtime s) (history s).
Definition set_uptime (n : N) (s : Backend) : Backend :=
  mkBackend (url s) (region s) (healthy s) (responseTime s) (lastCheck s)
            n (downtime s) (history s).
Definition set_downtime (n : N) (s : Backend) : Backend :=
  mkBackend (url s) (region s) (healthy s) (responseTime s) (lastCheck s)
            (uptime s) n (history s).
Definition set_history (h : list HistEntry) (s : Backend) : Backend :=
  mkBackend (url s) (region s) (healthy s) (responseTime s) (lastCheck s)
            (uptime s) (downtime s) h.

(** [s.history.push(v)]. *)
Definition push (v : HistEntry) (s : Backend) : Backend :=
  set_history (history s ++ [v]) s.

(** [if (s.history.length > 20) s.history.shift()]. *)
Definition shift_over_20 (h : list HistEntry) : list HistEntry :=
  if Nat.ltb 20 (length h) then tail h else h.
Definition shift_if_over (s : Backend) : Backend :=
  set_history (shift_over_20 (history s)) s.

(** [statusCode >= 200 && statusCode < 300]. *)
Definition is_2xx (statusCode : Z) : bool :=
  (200 <=? statusCode)%Z && (statusCode <? 300)%Z.

(** The response callback of [client.get] in [checkHealth], on the backend
    object [s] the probe captured.  [start] is [Date.now()] read when the
    probe was issued, [now] is [Date.now()] read in the callback and
    [clock] is [new Date().toLocaleTimeString()]. *)
Definition on_response (start now statusCode : Z) (clock : string)
    (s : Backend) : Backend :=
  let s :=
    if is_2xx statusCode then
      let s := set_healthy true s in
      let s := set_responseTime (Some (now - start)%Z) s in
      let s := set_uptime (uptime s + 1)%N s in
      push (HNum (now - start)%Z) s
    else
      let s := set_healthy false s in
      let s := set_responseTime None s in
      let s := set_downtime (downtime s + 1)%N s in
      push (HNum 0) s
  in
  let s := set_lastCheck (Some clock) s in
  shift_if_over s.

(** The ["error"] callback of the probe request. *)
Definition on_error (clock : string) (s : Backend) : Backend :=
  let s := set_healthy false s in
  let s := set_responseTime None s in
  let s := set_lastCheck (Some clock) s in
  let s := set_downtime (downtime s + 1)%N s in
  let s := push (HNum 0) s in
  shift_if_over s.

(** How a probe completes. *)
Inductive ProbeResult : Type :=
  | Responded (start now statusCode : Z) (clock : string)
  | Errored (clock : string).

Definition complete (p : ProbeResult) (s : Backend) : Backend :=
  match p with
  | Responded start now statusCode clock =>
      on_response start now statusCode clock s
  | Errored clock => on_error clock s
  end.

(** The probe on the object at [l] completes: the object is mutated in
    place, whether or not it still belongs to the registry. *)
Definition probe_completes (l : loc) (p : ProbeResult) (st : State) : State :=
  set_heap (alter (complete p) l (heap st)) st.

(** [checkHealth()] issues one probe per object of the registry.  Each
    probe first builds [new URL(s.url)] and calls [client.get] on it; both
    belong to the runtime, and [usable] tells which addresses they take.
    On any other address they throw a TypeError: the promise of that probe
    is rejected, so is the one [checkHealth] returns and the one of
    [printStatus], which awaits it and which nothing handles (in index.js
    the exception leaves [checkHealth] itself, called by the timer). *)
Definition checkHealth (usable : string -> bool) (st : State)
    : Result (list loc) :=
  if forallb usable (map url (registry st)) then Ok (servers st)
  else Throw TypeError.

(** ** 7) The proxy handler *)

(** What the handler or a callback of [proxy.web] does last: it answers
    the client itself, or it hands the request to [proxy.web] with the
    target and the [retry] flag of the enclosing call of [send]. *)
Inductive Action : Type :=
  | Respond (status : nat) (body : string)
  | ProxyWeb (target : option string) (retry : bool).

(** [stickyMap.set(clientId, target)], reached only with a truthy target. *)
Definition sticky_set (clientId : string) (target : option string) : M unit :=
  match target with
  | Some u =>
      modify (fun st => set_stickyMap (<[clientId := u]> (stickyMap st)) st)
  | None => ret tt
  end.

(** The first lines of the handler, which the specification calls
    [resolveTarget]: the sticky lookup, else the round-robin pick, which
    is then recorded in the sticky table. *)
Definition resolveTarget (clientId : string) : M (option string) :=
  let! target := gets (getStickyServer clientId) in
  if negb (truthy target) then
    let! target := chooseServer in
    let! _ := (if truthy target then sticky_set clientId target else ret tt) in
    ret target
  else ret target.

(** [send(retry)]: the call of [proxy.web] with the current target and a
    callback that holds [retry].  [proxy.web] belongs to the http-proxy
    library: with a null target it raises an Error at once (the program has
    no [proxy.on] listener for it, so the Error leaves [send]); any other
    target it takes, and the request is on its way: it will be answered by
    the backend, or the callback will be called. *)
Definition send (retry : bool) (target : option string) : M Action :=
  match target with
  | None => throw TargetError
  | Some _ => ret (ProxyWeb target retry)
  end.

Definition handler (clientId : string) : M Action :=
  let! target := resolveTarget clientId in
  if negb (truthy target) then
    ret (Respond 503 "No backend servers alive")
  else
    send false target.

(** The catch-all route: [const clientId = getClientId(req)], then the
    above. *)
Definition catch_all (md5_hex : string -> string) (req : Request) : M Action :=
  handler (getClientId md5_hex req).

(** The error callback that [send(retry)] passes to [proxy.web]. *)
Definition on_proxy_error (retry : bool) : M Action :=
  if negb retry then
    let! target := chooseServer in
    send true target
  else
    ret (Respond 500 "Load balancer error").

(** ** One request, run to its end *)

Inductive Final : Type :=
  | Pending                              (* proxy.web has not come back *)
  | Proxied (target : option string)     (* the backend's answer was piped *)
  | Answered (status : nat) (body : string)
  | Threw (e : JsError).                 (* an exception left the code *)

Record Run : Type := mkRun {
  forwards : list (option string);   (* the targets given to proxy.web *)
  final : Final;
  after : State
}.

(** The fate of one call of [proxy.web]: the backend answers, or the
    error callback is invoked.  Between the call and its callback other
    callbacks of the process run (probe completions, a reload, other
    requests): [meanwhile] is what they have done to the program's
    variables by the time the error callback runs. *)
Inductive Fate : Type :=
  | Answers
  | Fails (meanwhile : State -> State).

(** [env] gives the fates of the successive calls of [proxy.web] for this
    request. *)
Fixpoint drive (env : list Fate) (a : Action) (st : State) {struct env} : Run :=
  match a with
  | Respond status body => mkRun [] (Answered status body) st
  | ProxyWeb target retry =>
      match env with
      | [] => mkRun [target] Pending st
      | Answers :: _ => mkRun [target] (Proxied target) st
      | Fails meanwhile :: env' =>
          match on_proxy_error retry (meanwhile st) with
          | (Ok a', st') =>
              let r := drive env' a' st' in
              mkRun (target :: forwards r) (final r) (after r)
          | (Throw e, st') => mkRun [target] (Threw e) st'
          end
      end
  end.

Definition dispatch (env : list Fate) (clientId : string) (st : State) : Run :=
  match handler clientId st with
  | (Ok a, st') => drive env a st'
  | (Throw e, st') => mkRun [] (Threw e) st'
  end.

(** The callbacks that run between a forward and its error callback leave
    the sticky entry of the client as it is. *)
Definition keeps_binding (clientId : string) (f : Fate) : Prop :=
  match f with
  | Answers => True
  | Fails meanwhile =>
      forall st, stickyMap (meanwhile st) !! clientId = stickyMap st !! clientId
  end.

(** ** The process as a system of callbacks *)

(** Besides the program's variables, the probes that have been issued and
    have not completed (each holds the object it captured) and the calls
    of [proxy.web] that have not come back (each holds its target and the
    [retry] flag of its callback). *)
Record World : Type := mkWorld {
  prog : State;
  probes : list loc;
  inflight : list (option string * bool)
}.

Inductive Event : Type :=
  | Watch (input : ParseOutcome)           (* servers.json changed *)
  | Tick (usable : string -> bool)         (* the 5 s timer: checkHealth *)
  | ProbeDone (i : nat) (p : ProbeResult)  (* the i-th pending probe ends *)
  | Incoming (clientId : string)           (* a request reaches the handler *)
  | ForwardOk (j : nat)                    (* the j-th proxy.web succeeds *)
  | ForwardError (j : nat).                (* the j-th proxy.web fails *)

(** One callback.  [Throw e]: the exception [e] leaves the callback. *)
Definition wstep (ev : Event) (w : World) : Result World :=
  match ev with
  | Watch input =>
      match reload input (prog w) with
      | (Ok _, st') => Ok (mkWorld st' (probes w) (inflight w))
      | (Throw e, _) => Throw e
      end
  | Tick usable =>
      match checkHealth usable (prog w) with
      | Ok issued => Ok (mkWorld (prog w) (probes w ++ issued) (inflight w))
      | Throw e => Throw e
      end
  | ProbeDone i p =>
      match probes w !! i with
      | Some l =>
          Ok (mkWorld (probe_completes l p (prog w)) (delete i (probes w))
                      (inflight w))
      | None => Ok w
      end
  | Incoming clientId =>
      match handler clientId (prog w) with
      | (Ok (ProxyWeb target retry), st') =>
          Ok (mkWorld st' (probes w) (inflight w ++ [(target, retry)]))
      | (Ok (Respond _ _), st') => Ok (mkWorld st' (probes w) (inflight w))
      | (Throw e, _) => Throw e
      end
  | ForwardOk j => Ok (mkWorld (prog w) (probes w) (delete j (inflight w)))
  | ForwardError j =>
      match inflight w !! j with
      | Some (_, retry) =>
          match on_proxy_error retry (prog w) with
          | (Ok (ProxyWeb target retry'), st') =>
              Ok (mkWorld st' (probes w) (<[j := (target, retry')]> (inflight w)))
          | (Ok (Respond _ _), st') =>
              Ok (mkWorld st' (probes w) (delete j (inflight w)))
          | (Throw e, _) => Throw e
          end
      | None => Ok w
      end
  end.

Fixpoint wrun (evs : list Event) (w : World) : Result World :=
  match evs with
  | [] => Ok w
  | ev :: evs' =>
      match wstep ev w with
      | Ok w' => wrun evs' w'
      | Throw e => Throw e
      end
  end.

(** Start of the process: [let servers = loadServers(); let index = 0;
    const stickyMap = new Map()]. *)
Definition boot (input : ParseOutcome) : Result World :=
  match reload input (mkState [] [] 0 ∅) with
  | (Ok _, st) => Ok (mkWorld st [] [])
  | (Throw e, _) => Throw e
  end.

Definition reachable (w : World) : Prop :=
  exists input evs w0, boot input = Ok w0 /\ wrun evs w0 = Ok w.

(** The watcher's callback is called from the event loop.  The program
    installs no handler for uncaught exceptions (its only [process.on]
    listeners are for SIGINT and SIGTERM), so an exception that leaves the
    callback ends the process. *)
Inductive Process : Type :=
  | Running (w : World)
  | Exited (e : JsError).

Definition watcher_fires (input : ParseOutcome) (p : Process) : Process :=
  match p with
  | Running w =>
      match wstep (Watch input) w with
      | Ok w' => Running w'
      | Throw e => Exited e
      end
  | Exited e => Exited e
  end.

(** ** Derived notions used by the properties *)

(** [n] calls of [chooseServer] in a row, nothing running in between. *)
Fixpoint chooseServer_times (n : nat) : M (list (option string)) :=
  match n with
  | 0 => ret []
  | S n' =>
      let! t := chooseServer in
      let! ts := chooseServer_times n' in
      ret (t :: ts)
  end.

(** The entry that a completed probe pushes on [history]. *)
Definition pushed (p : ProbeResult) : HistEntry :=
  match p with
  | Responded start now statusCode _ =>
      if is_2xx statusCode
      then HNum (now - start)%Z
      else HNum 0
  | Errored _ => HNum 0
  end.

(** Probes on one object that complete one after the other. *)
Definition completes (ps : list ProbeResult) (s : Backend) : Backend :=
  foldl (fun s p => complete p s) s ps.

(** Every object of the store has exactly twenty history entries. *)
Definition histories_full (st : State) : Prop :=
  Forall (fun b => length (history b) = 20) (heap st).

(** A backend list is malformed when reading it throws or when it is not
    an array. *)
Definition malformed (input : ParseOutcome) : Prop :=
  match input with
  | Descriptors _ => False
  | _ => True
  end.

(** The initial state of a backend: down, no timing, zero counters,
    twenty blank history slots. *)
Definition initial (b : Backend) : Prop :=
  healthy b = false /\ responseTime b = None /\ lastCheck b = None /\
  uptime b = 0%N /\ downtime b = 0%N /\ history b = replicate 20 HBlank.

(** The first variant of the program ([index.js]) probes the backend's own
    URL and counts any response as a success. *)
Module Legacy.
Definition on_response (start now : Z) (clock : string) (s : Backend)
    : Backend :=
  let s := set_healthy true s in
  let s := set_responseTime (Some (now - start)%Z) s in
  let s := set_lastCheck (Some clock) s in
  let s := set_uptime (uptime s + 1)%N s in
  let s := push (HNum (now - start)%Z) s in
  shift_if_over s.

Definition on_error (clock : string) (s : Backend) : Backend :=
  let s := set_healthy false s in
  let s := set_responseTime None s in
  let s := set_lastCheck (Some clock) s in
  let s := set_downtime (downtime s + 1)%N s in
  let s := push (HNum 0) s in
  shift_if_over s.

(** The callback that runs when a probe ends.  The response callback takes
    no argument: the status of the response is not looked at. *)
Definition complete (p : ProbeResult) (s : Backend) : Backend :=
  match p with
  | Responded start now _ clock => on_response start now clock s
  | Errored clock => on_error clock s
  end.
End Legacy.

(** ** A run of the process in which the healthy subset shrinks

    Three backends answer their first probe; two clients are served, which
    leaves the cursor at 2; at the next probe cycle the second and third
    backends fail. *)
Module Shrink.
Definition A : string := "http://10.0.0.1:3000".
Definition B : string := "http://10.0.0.2:3000".
Definition C : string := "http://10.0.0.3:3000".

Definition config : ParseOutcome :=
  Descriptors [mkDescriptor A None; mkDescriptor B None; mkDescriptor C None].

Definition up : ProbeResult := Responded 1000 1007 200 "10:00:00".
Definition down : ProbeResult := Errored "10:00:05".

(** What the runtime takes as the address of a probe in this run: the
    addresses with the http scheme. *)
Definition usable (u : string) : bool := String.prefix "http://" u.

(** Two clients behind a front proxy, and their fingerprints: the MD5
    digests of "203.0.113.7curl/8.5.0" and of "203.0.113.9curl/8.5.0". *)
Definition reqF : Request :=
  mkRequest (Some "203.0.113.7") "::ffff:10.0.0.254" (Some "curl/8.5.0").
Definition reqG : Request :=
  mkRequest (Some "203.0.113.9") "::ffff:10.0.0.254" (Some "curl/8.5.0").
Definition F : string := "a161d854dc3d2362585c87ca4d08da2c".
Definition G : string := "e8237347a3a18129e3928449e753e659".

Definition events : list Event :=
  [ Tick usable; ProbeDone 0 up; ProbeDone 0 up; ProbeDone 0 up;
    Incoming F; Incoming G; ForwardOk 0; ForwardOk 0;
    Tick usable; ProbeDone 1 down; ProbeDone 1 down; ProbeDone 0 up ].

Definition world : World :=
  match boot config with
  | Ok w0 => match wrun events w0 with
             | Ok w => w
             | Throw _ => mkWorld (mkState [] [] 0 ∅) [] []
             end
  | Throw _ => mkWorld (mkState [] [] 0 ∅) [] []
  end.

Definition state : State := prog world.

(** The second backend at the end of the run: one success, one failure. *)
Definition second : Backend :=
  mkBackend B None false None (Some "10:00:05") 1 1
            (replicate 18 HBlank ++ [HNum 7; HNum 0]).
End Shrink.

(** ** A registry that has not been probed yet, with a stale sticky entry *)
Module Unprobed.
Definition state : State :=
  mkState [fresh_backend (mkDescriptor Shrink.A None);
           fresh_backend (mkDescriptor Shrink.B None)]
          [0; 1] 0 {[Shrink.F := Shrink.A]}.
End Unprobed.

(** ** Three healthy backends, cursor 0 *)
Module ABC.
Definition up (u : string) : Backend :=
  mkBackend u None true (Some 7%Z) (Some "10:00:00") 1 0
            (replicate 19 HBlank ++ [HNum 7]).
Definition state : State :=
  mkState [up "http://a"; up "http://b"; up "http://c"] [0; 1; 2] 0 ∅.
End ABC.

(** Four backends, the second one down; the cursor is 0. *)
Module Mixed.
Definition down (u : string) : Backend :=
  mkBackend u None false None (Some "10:00:05") 0 1
            (replicate 19 HBlank ++ [down_marker]).
Definition state : State :=
  mkState [ABC.up "http://a"; down "http://x"; ABC.up "http://b";
           ABC.up "http://c"] [0; 1; 2; 3] 0 ∅.
End Mixed.

(** ** The rest of the program *)

(** *** Health check path *)

(** [pathname.replace] with the pattern of a slash at the end of the input
    and the empty replacement: a slash that ends the path is removed, one
    at most. *)
Fixpoint strip_trailing_slash (pathname : string) : string :=
  match pathname with
  | EmptyString => EmptyString
  | String c rest =>
      match rest with
      | EmptyString => if Ascii.eqb c "/"%char then EmptyString else pathname
      | String _ _ => String c (strip_trailing_slash rest)
      end
  end.

(** The path that [checkHealth] assigns to the probe URL. *)
Definition healthz_pathname (pathname : string) : string :=
  strip_trailing_slash pathname +:+ "/healthz".

(** *** Probe outcomes, summarised *)

(** Whether a completed probe counts as a success. *)
Definition success (p : ProbeResult) : bool :=
  match p with
  | Responded _ _ statusCode _ => is_2xx statusCode
  | Errored _ => false
  end.

(** The runtime fields of a backend object fit together: the flag is set
    exactly when a response time is stored, an object that was never
    checked is as [loadServers] made it, and the history is a run of blank
    slots followed by one number per completed probe, twenty at most. *)
Definition consistent (b : Backend) : Prop :=
  (healthy b = true <-> responseTime b <> None) /\
  (lastCheck b = None <-> (uptime b + downtime b = 0)%N) /\
  (lastCheck b = None -> healthy b = false /\ history b = blank_history) /\
  exists nums : list Z,
    history b = replicate (20 - length nums) HBlank ++ map HNum nums /\
    length nums = Nat.min 20 (N.to_nat (uptime b + downtime b)).

(** Every reference of the registry and of the pending probes points to
    an allocated object. *)
Definition well_formed (w : World) : Prop :=
  Forall (fun l : nat => l < length (heap (prog w))) (servers (prog w)) /\
  Forall (fun l : nat => l < length (heap (prog w))) (probes w).

(** A target given to [proxy.web] is null or the address of a backend
    that the registry marks healthy. *)
Definition healthy_target (st : State) (t : option string) : Prop :=
  match t with
  | Some u => exists s, s ∈ registry st /\ url s = u /\ healthy s = true
  | None => True
  end.


(** *** Status table and graph *)

(** [s.responseTime || "-"]: the number, or a dash when it is null or 0. *)
Definition resp_cell (r : option Z) : Z + string :=
  match r with
  | Some n => if (n =? 0)%Z then inr "-" else inl n
  | None => inr "-"
  end.

(** Strings of the graph are sequences of UTF-16 code units.  [chars] is
    the literal of nine glyphs, from the space to the full block; [dot] is
    the middle dot. *)
Definition chars : list N :=
  [0x20; 0x2581; 0x2582; 0x2583; 0x2584; 0x2585; 0x2586; 0x2587; 0x2588]%N.
Definition dot : N := 0xB7%N.

(** [ToNumber] of a history entry: the blank string counts as 0. *)
Definition to_number (v : HistEntry) : Z :=
  match v with
  | HBlank => 0
  | HNum n => n
  end.

(** [Math.max(...values)] of a non-empty array. *)
Definition math_max (values : list HistEntry) : Z :=
  match values with
  | [] => 0
  | v :: vs => foldl (fun m x => Z.max m (to_number x)) (to_number v) vs
  end.

(** What one entry contributes to the joined string.  [chars[idx]] is
    undefined, and joined as nothing, when [idx] is NaN or infinite (the
    maximum is 0) or outside 0..8.  The quotient [v / max] is a double;
    for entries below 2^49 in absolute value scaling it by 8 and taking the
    floor gives the floor of the exact [8 v / max]. *)
Definition glyph (max : Z) (v : HistEntry) : list N :=
  match v with
  | HNum 0 => [dot]
  | _ =>
      if (max =? 0)%Z then []
      else
        let idx := (to_number v * 8 / max)%Z in
        if (idx <? 0)%Z then []
        else match chars !! Z.to_nat idx with
             | Some c => [c]
             | None => []
             end
  end.

Definition asciiGraph (values : list HistEntry) : list N :=
  match values with
  | [] => []
  | _ => concat (map (glyph (math_max values)) values)
  end.

(** *** Dashboard clients *)

(** [sseClients] holds the response objects of the open event streams;
    a response object is identified by a number. *)
Definition sse_connect (res : nat) (sseClients : list nat) : list nat :=
  sseClients ++ [res].                       (* sseClients.push(res) *)

Definition sse_close (res : nat) (sseClients : list nat) : list nat :=
  List.filter (fun client => negb (Nat.eqb client res)) sseClients.

(** The end of [printStatus]: the same snapshot of the registry is written
    to every client. *)
Definition sse_publish (st : State) (sseClients : list nat)
    : list (nat * list Backend) :=
  map (fun client => (client, registry st)) sseClients.

(** ** A backend that goes down while a request is being forwarded to it *)
Module Outage.
Definition config : ParseOutcome := Descriptors [mkDescriptor Shrink.A None].

Definition events : list Event :=
  [ Tick Shrink.usable; ProbeDone 0 Shrink.up; Incoming Shrink.F;
    Tick Shrink.usable; ProbeDone 0 Shrink.down ].

Definition world : World :=
  match boot config with
  | Ok w0 => match wrun events w0 with
             | Ok w => w
             | Throw _ => mkWorld (mkState [] [] 0 ∅) [] []
             end
  | Throw _ => mkWorld (mkState [] [] 0 ∅) [] []
  end.
End Outage.

(** ** The run [Shrink], one tick later: three probes are pending *)
Module Probing.
Definition world : World :=
  mkWorld Shrink.state
          (probes Shrink.world ++ servers Shrink.state)
          (inflight Shrink.world).
End Probing.

(** * Properties *)

(** ** Basic facts *)

Lemma set_index_same st : set_index (index st) st = st.
Proof. by destruct st. Qed.

Lemma alive_servers_set_index i st :
  alive_servers (set_index i st) = alive_servers st.
Proof. reflexivity. Qed.

Lemma chooseServer_none st :
  alive_servers st = [] -> chooseServer st = (Ok None, st).
Proof. intros H. unfold chooseServer. by rewrite H. Qed.

Lemma chooseServer_in_range st s :
  alive_servers st !! index st = Some s ->
  chooseServer st =
    (Ok (Some (url s)),
     set_index ((index st + 1) mod length (alive_servers st)) st).
Proof.
  intros H. unfold chooseServer.
  destruct (alive_servers st) as [|a al] eqn:E; [done|].
  cbn [length Nat.eqb]. by rewrite H.
Qed.

(** Whenever the cursor is at or beyond the size of a non-empty healthy
    subset, [alive[index]] is undefined and the read of [.url] throws. *)
Lemma chooseServer_out_of_range st :
  alive_servers st <> [] ->
  length (alive_servers st) <= index st ->
  chooseServer st = (Throw TypeError, st).
Proof.
  intros Hne Hle. unfold chooseServer.
  destruct (alive_servers st) as [|a al] eqn:E; [done|].
  cbn [Nat.eqb length]. cbn [length] in Hle.
  by rewrite (lookup_ge_None_2 (a :: al) (index st)).
Qed.

(** [chooseServer] writes nothing but the cursor. *)
Lemma chooseServer_frame st r st' :
  chooseServer st = (r, st') ->
  heap st' = heap st /\ servers st' = servers st /\
  stickyMap st' = stickyMap st.
Proof.
  unfold chooseServer.
  destruct (Nat.eqb _ _); [by intros [= <- <-]|].
  destruct (_ !! _); by intros [= <- <-].
Qed.

(** ** The run [Shrink] *)

Lemma Shrink_reachable : reachable Shrink.world.
Proof.
  unfold reachable.
  exists Shrink.config, Shrink.events.
  eexists. split; vm_compute; reflexivity.
Qed.

(** What is hashed for the two clients of the run. *)
Lemma Shrink_fingerprints md5_hex :
  getClientId md5_hex Shrink.reqF = md5_hex "203.0.113.7curl/8.5.0" /\
  getClientId md5_hex Shrink.reqG = md5_hex "203.0.113.9curl/8.5.0".
Proof. split; reflexivity. Qed.

Lemma Shrink_registry :
  map (fun b => (url b, healthy b)) (registry Shrink.state) =
    [(Shrink.A, true); (Shrink.B, false); (Shrink.C, false)].
Proof. vm_compute. reflexivity. Qed.

Lemma Shrink_sticky :
  stickyMap Shrink.state !! Shrink.F = Some Shrink.A /\
  stickyMap Shrink.state !! Shrink.G = Some Shrink.B.
Proof. split; vm_compute; reflexivity. Qed.

(** ** Round-robin cursor out of range *)

(** C1 (the code does not do this).  In the run [Shrink], which the
    process can go through, the cursor is 2 and one backend is healthy:
    [chooseServer] does not wrap the cursor before it reads
    [alive[index]]; the read of [.url] on [undefined] throws a TypeError
    and no address is returned.  The modulo is applied only after a
    successful read, to the advanced cursor.  The same happens in every
    state whose cursor is at or beyond the size of a non-empty healthy
    subset. *)
Theorem chooseServer_throws_after_shrink :
  reachable Shrink.world /\
  map url (alive_servers Shrink.state) = [Shrink.A] /\
  index Shrink.state = 2 /\
  chooseServer Shrink.state = (Throw TypeError, Shrink.state) /\
  (forall st,
     alive_servers st <> [] ->
     length (alive_servers st) <= index st ->
     chooseServer st = (Throw TypeError, st)).
Proof.
  split; [exact Shrink_reachable|].
  split; [vm_compute; reflexivity|].
  split; [vm_compute; reflexivity|].
  split; [|exact chooseServer_out_of_range].
  apply chooseServer_out_of_range; vm_compute; [discriminate | lia].
Qed.

(** ** Round-robin order *)

Lemma rotate_nat_add_mod base offset len :
  0 < len -> rotate_nat_add base offset len = (base + offset) mod len.
Proof.
  intros Hlen. unfold rotate_nat_add.
  rewrite <- Nat2Z.inj_add, <- Nat2Z.inj_mod. apply Nat2Z.id.
Qed.

Lemma lookup_cycle_rotate (al : list Backend) (i : nat) :
  map (fun k => url <$> al !! ((i + k) mod length al)) (seq 0 (length al)) =
  map (fun s => Some (url s)) (rotate i al).
Proof.
  apply list_eq. intros k. rewrite !list_lookup_fmap.
  destruct (decide (k < length al)) as [Hk|Hk].
  - rewrite lookup_seq_lt by done. rewrite lookup_rotate_r by done.
    rewrite rotate_nat_add_mod by lia. cbn.
    destruct (lookup_lt_is_Some_2 al ((i + k) mod length al)) as [s Hs].
    { apply Nat.mod_upper_bound. lia. }
    by rewrite Hs.
  - rewrite lookup_seq_ge by lia.
    rewrite (lookup_ge_None_2 (rotate i al)); [done|].
    rewrite length_rotate. lia.
Qed.

Lemma chooseServer_times_cycle (al : list Backend) (n : nat) : forall st,
  alive_servers st = al ->
  index st < length al ->
  chooseServer_times n st =
    (Ok (map (fun k => url <$> al !! ((index st + k) mod length al)) (seq 0 n)),
     set_index ((index st + n) mod length al) st).
Proof.
  induction n as [|n IH]; intros st Hal Hi.
  - cbn. rewrite Nat.add_0_r, Nat.mod_small by done.
    by rewrite set_index_same.
  - destruct (lookup_lt_is_Some_2 al (index st) Hi) as [s Hs].
    cbn [chooseServer_times]. unfold bind at 1.
    rewrite (chooseServer_in_range st s) by (by rewrite Hal).
    rewrite Hal. unfold bind at 1.
    rewrite IH; [|done|cbn; apply Nat.mod_upper_bound; lia].
    cbn [index set_index seq map]. unfold ret. f_equal.
    + f_equal. f_equal.
      * rewrite Nat.add_0_r, Nat.mod_small by done. by rewrite Hs.
      * rewrite <- seq_shift, map_map. apply map_ext. intros k.
        rewrite Nat.Div0.add_mod_idemp_l. do 3 f_equal. lia.
    + unfold set_index; cbn. f_equal.
      rewrite Nat.Div0.add_mod_idemp_l. f_equal. lia.
Qed.

Lemma filter_sublist {A} (f : A -> bool) (l : list A) :
  List.filter f l `sublist_of` l.
Proof.
  induction l as [|x l IH]; cbn; [done|].
  destruct (f x); by constructor.
Qed.

Lemma elem_of_rotate {A} (x : A) i (l : list A) : x ∈ rotate i l <-> x ∈ l.
Proof.
  unfold rotate. rewrite elem_of_app.
  generalize (i mod length l). intros n.
  assert (H : x ∈ l <-> x ∈ take n l ++ drop n l) by by rewrite take_drop.
  rewrite H, elem_of_app. tauto.
Qed.

Lemma elem_of_alive st s :
  s ∈ List.filter healthy (registry st) <-> s ∈ registry st /\ healthy s = true.
Proof. rewrite !list_elem_of_In. apply filter_In. Qed.

(** C5.  Let the healthy backends of the registry, in registry order, be
    [N] in number, the cursor be inside them and nothing change between
    the calls.  The [k]-th of any number of consecutive selections returns
    the healthy backend at position [(cursor + k) mod N]; every selection
    returns a backend of the registry that is marked healthy, never one
    that is down; [N] selections return every healthy backend of the
    registry exactly once, in registry order from the cursor on and
    wrapping around, and bring the cursor back, so that the next [N]
    repeat them; from cursor 0 this is the registry order itself, and with
    three healthy backends [a; b; c] five selections return
    a, b, c, a, b. *)
Theorem round_robin_visits_each_once st :
  let al := List.filter healthy (registry st) in
  let N := length al in
  index st < N ->
  (forall n,
     chooseServer_times n st =
       (Ok (map (fun k => url <$> al !! ((index st + k) mod N)) (seq 0 n)),
        set_index ((index st + n) mod N) st)) /\
  (forall n k t,
     fst (chooseServer_times n st) = Ok k -> t ∈ k ->
     exists s, t = Some (url s) /\ s ∈ registry st /\ healthy s = true) /\
  chooseServer_times N st =
    (Ok (map (fun s => Some (url s)) (rotate (index st) al)), st) /\
  rotate (index st) al ≡ₚ al /\
  al `sublist_of` registry st /\
  (forall s, s ∈ rotate (index st) al <->
             s ∈ registry st /\ healthy s = true) /\
  (index st = 0 ->
     chooseServer_times N st = (Ok (map (fun s => Some (url s)) al), st)) /\
  (forall a b c, al = [a; b; c] -> index st = 0 ->
     fst (chooseServer_times 5 st) =
       Ok [Some (url a); Some (url b); Some (url c);
           Some (url a); Some (url b)]).
Proof.
  intros al N Hi.
  assert (Hall : forall n,
     chooseServer_times n st =
       (Ok (map (fun k => url <$> al !! ((index st + k) mod N)) (seq 0 n)),
        set_index ((index st + n) mod N) st)).
  { intros n. by apply chooseServer_times_cycle. }
  assert (HN : chooseServer_times N st =
    (Ok (map (fun s => Some (url s)) (rotate (index st) al)), st)).
  { rewrite Hall. subst N. rewrite lookup_cycle_rotate. f_equal.
    rewrite <- (Nat.mul_1_l (length al)) at 1.
    rewrite Nat.Div0.mod_add, Nat.mod_small by done.
    apply set_index_same. }
  split; [exact Hall|]. split.
  { intros n k t. rewrite Hall. cbn [fst]. intros [= <-] Ht.
    apply list_elem_of_In, in_map_iff in Ht as (i & <- & _).
    destruct (lookup_lt_is_Some_2 al ((index st + i) mod N)) as [s Hs].
    { apply Nat.mod_upper_bound. lia. }
    rewrite Hs. exists s. split; [done|].
    apply elem_of_alive. by eapply list_elem_of_lookup_2. }
  split; [exact HN|]. split.
  { unfold rotate. rewrite Permutation_app_comm. by rewrite take_drop. }
  split; [apply filter_sublist|]. split.
  { intros s. rewrite elem_of_rotate. apply elem_of_alive. }
  split.
  - intros H0. rewrite HN, H0. unfold rotate.
    rewrite Nat.Div0.mod_0_l. cbn. by rewrite app_nil_r.
  - intros a b c Habc H0. rewrite Hall. subst N. rewrite Habc, H0.
    reflexivity.
Qed.

(** Four backends, the second one down: five selections return the three
    healthy ones in registry order and start again, and never the one that
    is down. *)
Lemma round_robin_visits_each_once_witness :
  map (fun b => (url b, healthy b)) (registry Mixed.state) =
    [("http://a", true); ("http://x", false);
     ("http://b", true); ("http://c", true)] /\
  index Mixed.state < length (List.filter healthy (registry Mixed.state)) /\
  fst (chooseServer_times 5 Mixed.state) =
    Ok [Some "http://a"; Some "http://b"; Some "http://c";
        Some "http://a"; Some "http://b"].
Proof.
  assert (H : index Mixed.state
              < length (List.filter healthy (registry Mixed.state))).
  { vm_compute. lia. }
  split; [reflexivity|]. split; [exact H|].
  exact (proj2 (proj2 (proj2 (proj2 (proj2 (proj2 (proj2
    (round_robin_visits_each_once Mixed.state H)))))))
    (ABC.up "http://a") (ABC.up "http://b") (ABC.up "http://c")
    eq_refl eq_refl).
Defined.

(** ** No backend alive *)

Lemma alive_servers_nil st :
  Forall (fun b => healthy b = false) (registry st) -> alive_servers st = [].
Proof.
  unfold alive_servers. induction 1 as [|b bs Hb _ IH]; [done|].
  cbn. by rewrite Hb.
Qed.

Lemma getStickyServer_healthy clientId st u :
  getStickyServer clientId st = Some u ->
  stickyMap st !! clientId = Some u /\
  exists s, s ∈ registry st /\ url s = u /\ healthy s = true.
Proof.
  unfold getStickyServer.
  destruct (stickyMap st !! clientId) as [v|]; [|done].
  destruct (List.find _ _) as [s|] eqn:Hfind; [|done].
  intros [= <-]. apply find_some in Hfind as [Hin Hp].
  apply andb_prop in Hp as [Hurl Hs]. apply bool_decide_eq_true in Hurl.
  split; [by rewrite Hurl|].
  exists s. by rewrite <- list_elem_of_In in Hin.
Qed.

Lemma getStickyServer_none_alive clientId st :
  alive_servers st = [] -> getStickyServer clientId st = None.
Proof.
  intros Hal. destruct (getStickyServer clientId st) as [u|] eqn:E; [|done].
  apply getStickyServer_healthy in E as (_ & s & Hin & _ & Hs).
  assert (Hf : In s (alive_servers st)).
  { apply filter_In. by rewrite <- list_elem_of_In. }
  rewrite Hal in Hf. destruct Hf.
Qed.

(** C4.  When no backend of the registry is healthy, the sticky lookup
    and the round-robin pick both yield nothing, [resolveTarget] returns
    none and leaves the state as it is, and the dispatch answers 503
    without handing the request to [proxy.web], whatever the transport
    would have done. *)
Theorem no_backend_alive_503 st clientId env :
  Forall (fun b => healthy b = false) (registry st) ->
  getStickyServer clientId st = None /\
  chooseServer st = (Ok None, st) /\
  resolveTarget clientId st = (Ok None, st) /\
  dispatch env clientId st =
    mkRun [] (Answered 503 "No backend servers alive") st.
Proof.
  intros Hdown. apply alive_servers_nil in Hdown.
  assert (Hs := getStickyServer_none_alive clientId st Hdown).
  assert (Hc := chooseServer_none st Hdown).
  assert (Hr : resolveTarget clientId st = (Ok None, st)).
  { unfold resolveTarget. run. rewrite Hs. cbn. by rewrite Hc. }
  repeat split; try done.
  unfold dispatch, handler, bind. rewrite Hr. cbn. by destruct env.
Qed.

Lemma no_backend_alive_503_witness :
  Forall (fun b => healthy b = false) (registry Unprobed.state) /\
  dispatch [Answers] Shrink.F Unprobed.state =
    mkRun [] (Answered 503 "No backend servers alive") Unprobed.state.
Proof.
  assert (H : Forall (fun b => healthy b = false) (registry Unprobed.state)).
  { repeat constructor. }
  split; [exact H|].
  exact (proj2 (proj2 (proj2
    (no_backend_alive_503 Unprobed.state Shrink.F [Answers] H)))).
Defined.

(** ** Sticky resolution *)

Lemma truthy_Some t : truthy t = true -> exists u, t = Some u /\ u <> EmptyString.
Proof.
  destruct t as [u|]; [|done]. cbn. intros H. exists u. split; [done|].
  apply negb_true_iff, bool_decide_eq_false in H. done.
Qed.

Lemma truthy_nonempty u : u <> EmptyString -> truthy (Some u) = true.
Proof.
  intros H. cbn. apply negb_true_iff. by apply bool_decide_eq_false.
Qed.

(** A sticky hit: the mapped address has a healthy backend. *)
Lemma getStickyServer_hit clientId st u :
  stickyMap st !! clientId = Some u ->
  (exists s, s ∈ registry st /\ url s = u /\ healthy s = true) ->
  getStickyServer clientId st = Some u.
Proof.
  intros Hm (s & Hin & Hurl & Hs). unfold getStickyServer. rewrite Hm.
  destruct (List.find _ _) as [s'|] eqn:Hfind.
  - apply find_some in Hfind as [_ Hp].
    apply andb_prop in Hp as [Hu _]. apply bool_decide_eq_true in Hu.
    by rewrite Hu.
  - exfalso. apply list_elem_of_In in Hin.
    pose proof (find_none _ _ Hfind s Hin) as Hp. cbn in Hp.
    rewrite Hs, andb_true_r in Hp. apply bool_decide_eq_false in Hp. done.
Qed.

Lemma resolveTarget_hit clientId st u :
  stickyMap st !! clientId = Some u ->
  u <> EmptyString ->
  (exists s, s ∈ registry st /\ url s = u /\ healthy s = true) ->
  resolveTarget clientId st = (Ok (Some u), st).
Proof.
  intros Hm Hne Hs. unfold resolveTarget. run.
  rewrite (getStickyServer_hit _ _ _ Hm Hs).
  by rewrite (truthy_nonempty _ Hne).
Qed.

(** A sticky miss on a state whose cursor is inside the healthy subset:
    the round-robin pick is returned and recorded. *)
Lemma resolveTarget_miss clientId st s :
  getStickyServer clientId st = None ->
  alive_servers st !! index st = Some s ->
  url s <> EmptyString ->
  resolveTarget clientId st =
    (Ok (Some (url s)),
     set_stickyMap (<[clientId := url s]> (stickyMap st))
       (set_index ((index st + 1) mod length (alive_servers st)) st)).
Proof.
  intros Hmiss Hs Hne. unfold resolveTarget. run. rewrite Hmiss. cbn.
  rewrite (chooseServer_in_range _ _ Hs).
  by rewrite (truthy_nonempty _ Hne).
Qed.

(** Whatever [resolveTarget] returns as a usable target is what the
    sticky table holds for the client afterwards. *)
Lemma resolveTarget_recorded clientId st t st1 :
  resolveTarget clientId st = (Ok t, st1) ->
  truthy t = true ->
  exists u, t = Some u /\ u <> EmptyString /\ stickyMap st1 !! clientId = Some u.
Proof.
  unfold resolveTarget. run.
  destruct (truthy (getStickyServer clientId st)) eqn:Hst; cbn.
  - intros [= <- <-] _. apply truthy_Some in Hst as (u & Hu & Hne).
    exists u. repeat split; try done.
    by apply getStickyServer_healthy in Hu as [? _].
  - destruct (chooseServer st) as [[t'|e] st'] eqn:Hc; [|done].
    destruct (truthy t') eqn:Ht'.
    + apply truthy_Some in Ht' as (u & -> & Hne). cbn.
      intros [= <- <-] _. exists u. repeat split; try done.
      cbn. apply lookup_insert_eq.
    + cbn. intros [= <- <-]. by rewrite Ht'.
Qed.

(** ** The one retry *)

Lemma on_proxy_error_sticky retry st r st' :
  on_proxy_error retry st = (r, st') -> stickyMap st' = stickyMap st.
Proof.
  destruct retry; cbn.
  - by intros [= <- <-].
  - unfold bind. destruct (chooseServer st) as [[[t|]|e] st1] eqn:Hc;
      apply chooseServer_frame in Hc as (_ & _ & Hm); by intros [= <- <-].
Qed.

Lemma drive_sticky clientId env :
  Forall (keeps_binding clientId) env ->
  forall a st,
    stickyMap (after (drive env a st)) !! clientId = stickyMap st !! clientId.
Proof.
  induction 1 as [|[|meanwhile] env Hk _ IH];
    intros [status body|target retry] st; cbn; try done.
  destruct (on_proxy_error retry (meanwhile st)) as [[a'|e] st'] eqn:Hp;
    apply on_proxy_error_sticky in Hp; cbn.
  - by rewrite IH, Hp.
  - by rewrite Hp.
Qed.

Lemma drive_Respond env status body st :
  drive env (Respond status body) st = mkRun [] (Answered status body) st.
Proof. by destruct env. Qed.

Lemma drive_retry_forwards env target st :
  length (forwards (drive env (ProxyWeb target true) st)) = 1.
Proof. destruct env as [|[] env]; cbn; try done. by rewrite drive_Respond. Qed.

Lemma send_Some retry u st :
  send retry (Some u) st = (Ok (ProxyWeb (Some u) retry), st).
Proof. reflexivity. Qed.

Lemma send_inv retry t st r st' :
  send retry t st = (r, st') ->
  st' = st /\
  ((exists u, t = Some u /\ r = Ok (ProxyWeb (Some u) retry)) \/
   (t = None /\ r = Throw TargetError)).
Proof.
  destruct t as [u|]; intros [= <- <-]; (split; [done|]);
    [left; by exists u|by right].
Qed.

(** [proxy.web] is called at most twice for a request. *)
Lemma dispatch_at_most_two_forwards env clientId st :
  length (forwards (dispatch env clientId st)) <= 2.
Proof.
  unfold dispatch.
  destruct (handler clientId st) as [[[status body|t retry]|e] st1];
    [rewrite drive_Respond; cbn; lia| |cbn; lia].
  destruct retry; [rewrite drive_retry_forwards; lia|].
  destruct env as [|[|meanwhile] env]; cbn; try lia.
  unfold bind.
  destruct (chooseServer (meanwhile st1)) as [[[t'|]|e] st2]; cbn; try lia.
  rewrite drive_retry_forwards. lia.
Qed.

(** When the retry's pick returns a backend: one retry, then 500. *)
Lemma dispatch_one_retry env clientId st t st1 between after_retry u st2 :
  handler clientId st = (Ok (ProxyWeb t false), st1) ->
  chooseServer (between st1) = (Ok (Some u), st2) ->
  dispatch (Fails between :: Fails after_retry :: env) clientId st =
    mkRun [t; Some u] (Answered 500 "Load balancer error") (after_retry st2) /\
  dispatch (Fails between :: Answers :: env) clientId st =
    mkRun [t; Some u] (Proxied (Some u)) st2.
Proof.
  intros Hh Hc.
  assert (Hpe : on_proxy_error false (between st1) =
                (Ok (ProxyWeb (Some u) true), st2)).
  { unfold on_proxy_error, bind. cbn [negb]. by rewrite Hc. }
  unfold dispatch. rewrite Hh. cbn [drive]. rewrite Hpe. cbn [drive].
  cbn [on_proxy_error negb ret]. unfold ret. rewrite drive_Respond. done.
Qed.

(** The retry's pick does not read the sticky table. *)
Lemma chooseServer_ignores_sticky m st :
  chooseServer (set_stickyMap m st) =
    (fst (chooseServer st), set_stickyMap m (snd (chooseServer st))).
Proof.
  unfold chooseServer. change (alive_servers (set_stickyMap m st))
    with (alive_servers st). cbn [index set_stickyMap].
  destruct (Nat.eqb _ _); [done|]. by destruct (_ !! _).
Qed.

(** C2 (the code does not do this).  In the run [Shrink] the client [F]
    is bound to the one healthy backend and the cursor is 2.  Its request
    is forwarded to that backend; when the forward fails, the retry's
    [chooseServer] throws a TypeError inside the error callback of
    [proxy.web]: the request is not forwarded again and no 500 is sent. *)
Theorem retry_throws_after_shrink env :
  reachable Shrink.world /\
  dispatch (Fails id :: env) Shrink.F Shrink.state =
    mkRun [Some Shrink.A] (Threw TypeError) Shrink.state.
Proof.
  split; [exact Shrink_reachable|].
  vm_compute. reflexivity.
Qed.

(** C3 (the code does not do this).  In the run [Shrink] the client [G]
    was bound to the second backend, which has since become unhealthy,
    while the first is healthy.  The next resolution for [G] returns
    neither another healthy backend nor none: [chooseServer] throws, and
    no new mapping is recorded for [G]. *)
Theorem resolve_throws_after_unhealthy :
  reachable Shrink.world /\
  stickyMap Shrink.state !! Shrink.G = Some Shrink.B /\
  map (fun b => (url b, healthy b)) (registry Shrink.state) =
    [(Shrink.A, true); (Shrink.B, false); (Shrink.C, false)] /\
  resolveTarget Shrink.G Shrink.state = (Throw TypeError, Shrink.state).
Proof.
  split; [exact Shrink_reachable|].
  split; [exact (proj2 Shrink_sticky)|].
  split; [exact Shrink_registry|].
  vm_compute. reflexivity.
Qed.

(** C10.  Once the handler has picked a target [u] for the client and
    handed the request to [proxy.web], the sticky table maps the client to
    [u]; the error callback writes nothing to the sticky table, whether
    its round-robin pick returns or throws, so after the request has run
    to its end, retry included, the client is still mapped to [u],
    whatever else ran between a forward and its error callback, as long as
    that left the client's own entry alone; and in any later state that
    still maps the client to [u] and has a healthy backend at that
    address, the handler sends the client's request to [u] again. *)
Theorem retry_keeps_sticky_mapping clientId st t st1 :
  handler clientId st = (Ok (ProxyWeb t false), st1) ->
  exists u,
    t = Some u /\
    stickyMap st1 !! clientId = Some u /\
    (forall st2 r st3,
       on_proxy_error false st2 = (r, st3) -> stickyMap st3 = stickyMap st2) /\
    (forall env,
       Forall (keeps_binding clientId) env ->
       stickyMap (after (dispatch env clientId st)) !! clientId = Some u) /\
    (forall st4,
       stickyMap st4 !! clientId = Some u ->
       (exists s, s ∈ registry st4 /\ url s = u /\ healthy s = true) ->
       handler clientId st4 = (Ok (ProxyWeb (Some u) false), st4)).
Proof.
  intros Hh. unfold handler, bind in Hh.
  destruct (resolveTarget clientId st) as [[t0|e] st0] eqn:Hr; [|done].
  destruct (truthy t0) eqn:Ht; cbn [negb] in Hh; [|done].
  destruct (resolveTarget_recorded _ _ _ _ Hr Ht) as (u & -> & Hne & Hm).
  rewrite send_Some in Hh. injection Hh as <- <-.
  exists u. split; [done|]. split; [done|]. split; [|split].
  - intros st2 r st3. apply on_proxy_error_sticky.
  - intros env Henv. unfold dispatch, handler, bind. rewrite Hr.
    rewrite Ht. cbn [negb]. rewrite send_Some.
    by rewrite (drive_sticky _ _ Henv).
  - intros st4 Hm4 Hs4. unfold handler, bind.
    rewrite (resolveTarget_hit _ _ _ Hm4 Hne Hs4).
    by rewrite (truthy_nonempty _ Hne).
Qed.

(** The first forward goes to the first backend; its probe fails and marks
    it down before the forward fails; the retry goes elsewhere and the
    client stays bound to the first backend. *)
Lemma retry_keeps_sticky_mapping_witness :
  handler Shrink.F ABC.state =
    (Ok (ProxyWeb (Some "http://a") false), snd (handler Shrink.F ABC.state)) /\
  Forall (keeps_binding Shrink.F)
         [Fails (probe_completes 0 Shrink.down); Answers] /\
  forwards (dispatch [Fails (probe_completes 0 Shrink.down); Answers]
                     Shrink.F ABC.state) =
    [Some "http://a"; Some "http://c"] /\
  stickyMap (after (dispatch [Fails (probe_completes 0 Shrink.down); Answers]
                             Shrink.F ABC.state)) !! Shrink.F =
    Some "http://a".
Proof.
  assert (H : handler Shrink.F ABC.state =
    (Ok (ProxyWeb (Some "http://a") false), snd (handler Shrink.F ABC.state))).
  { vm_compute. reflexivity. }
  assert (Hk : Forall (keeps_binding Shrink.F)
                 [Fails (probe_completes 0 Shrink.down); Answers]).
  { repeat constructor. }
  split; [exact H|]. split; [exact Hk|]. split; [vm_compute; reflexivity|].
  destruct (retry_keeps_sticky_mapping Shrink.F ABC.state _ _ H)
    as (u & Hu & _ & _ & Henv & _).
  injection Hu as <-. exact (Henv _ Hk).
Defined.

(** With three healthy backends and the cursor at 0, a new client is sent
    to the first; its forward fails, the retry goes to the second and
    succeeds; the client stays bound to the first. *)
Example retry_goes_elsewhere_sticky_stays :
  forwards (dispatch [Fails id; Answers] Shrink.F ABC.state) =
    [Some "http://a"; Some "http://b"] /\
  final (dispatch [Fails id; Answers] Shrink.F ABC.state) =
    Proxied (Some "http://b") /\
  stickyMap (after (dispatch [Fails id; Answers] Shrink.F ABC.state))
    !! Shrink.F = Some "http://a".
Proof. repeat split; vm_compute; reflexivity. Qed.

(** ** Probe outcomes *)

Lemma is_2xx_spec statusCode :
  is_2xx statusCode = true <-> (200 <= statusCode < 300)%Z.
Proof. unfold is_2xx. rewrite andb_true_iff, Z.leb_le, Z.ltb_lt. done. Qed.

Lemma complete_history p s :
  history (complete p s) = shift_over_20 (history s ++ [pushed p]).
Proof.
  destruct p as [start now statusCode clock|clock]; cbn;
    [destruct (is_2xx _)|]; reflexivity.
Qed.

Lemma probe_completes_lookup l p st b :
  heap st !! l = Some b ->
  heap (probe_completes l p st) !! l = Some (complete p b).
Proof.
  intros H. unfold probe_completes, set_heap. cbn [heap].
  by rewrite list_lookup_alter_eq, H.
Qed.

Lemma probe_completes_frame l p st :
  servers (probe_completes l p st) = servers st /\
  index (probe_completes l p st) = index st /\
  stickyMap (probe_completes l p st) = stickyMap st /\
  forall l', l' <> l -> heap (probe_completes l p st) !! l' = heap st !! l'.
Proof.
  repeat split. intros l' Hne. unfold probe_completes, set_heap. cbn [heap].
  by rewrite list_lookup_alter_ne.
Qed.

(** The latest variant of [checkHealth] (part_000).  A completed probe
    marks the backend healthy exactly when it got
    a response whose status is in [200,300).  In that case the flag is set,
    the time elapsed since the probe started is stored as the response
    time and pushed on the history, and the success counter grows by one.
    On any other status and on a transport error the flag is cleared, the
    response time is reset to null, the failure counter grows by one and
    the down marker is pushed.  The time of the check is written in every
    case.  The mutation hits the probed object in the store. *)
Theorem probe_outcome_recorded (p : ProbeResult) (s : Backend) :
  (healthy (complete p s) = true <->
   exists start now statusCode clock,
     p = Responded start now statusCode clock /\ (200 <= statusCode < 300)%Z) /\
  (forall start now statusCode clock,
     p = Responded start now statusCode clock ->
     (200 <= statusCode < 300)%Z ->
     healthy (complete p s) = true /\
     responseTime (complete p s) = Some (now - start)%Z /\
     uptime (complete p s) = (uptime s + 1)%N /\
     downtime (complete p s) = downtime s /\
     history (complete p s) =
       shift_over_20 (history s ++ [HNum (now - start)%Z]) /\
     lastCheck (complete p s) = Some clock) /\
  (forall clock,
     (p = Errored clock \/
      exists start now statusCode,
        p = Responded start now statusCode clock /\
        ~ (200 <= statusCode < 300)%Z) ->
     healthy (complete p s) = false /\
     responseTime (complete p s) = None /\
     uptime (complete p s) = uptime s /\
     downtime (complete p s) = (downtime s + 1)%N /\
     history (complete p s) = shift_over_20 (history s ++ [down_marker]) /\
     lastCheck (complete p s) = Some clock) /\
  last (history (complete p s)) = Some (pushed p) /\
  url (complete p s) = url s /\ region (complete p s) = region s /\
  (forall st l, heap st !! l = Some s ->
     heap (probe_completes l p st) !! l = Some (complete p s)).
Proof.
  split; [|split; [|split; [|split; [|split; [|split]]]]].
  - destruct p as [start now statusCode clock|clock]; cbn.
    + destruct (is_2xx statusCode) eqn:E; cbn.
      * split; [|done]. intros _. exists start, now, statusCode, clock.
        split; [done|]. by apply is_2xx_spec.
      * split; [done|]. intros (? & ? & ? & ? & [= <- <- <- <-] & H).
        apply is_2xx_spec in H. congruence.
    + split; [done|]. by intros (? & ? & ? & ? & ? & _).
  - intros start now statusCode clock -> H. apply is_2xx_spec in H.
    cbn. rewrite H. by cbn.
  - intros clock [->|(start & now & statusCode & -> & H)]; [by cbn|].
    cbn. destruct (is_2xx statusCode) eqn:E; [by apply is_2xx_spec in E|by cbn].
  - rewrite complete_history. unfold shift_over_20.
    destruct (Nat.ltb _ _) eqn:E.
    + destruct (history s) as [|x h]; [done|]. cbn. by rewrite last_snoc.
    + by rewrite last_snoc.
  - destruct p; cbn; [destruct (is_2xx _)|]; reflexivity.
  - destruct p; cbn; [destruct (is_2xx _)|]; reflexivity.
  - intros st l. apply probe_completes_lookup.
Qed.

Lemma probe_outcome_recorded_witness :
  (200 <= 204 < 300)%Z /\
  healthy (complete (Responded 1000 1007 204 "10:00:00") Shrink.second) = true /\
  responseTime (complete (Responded 1000 1007 204 "10:00:00") Shrink.second)
    = Some 7%Z /\
  uptime (complete (Responded 1000 1007 204 "10:00:00") Shrink.second) = 2%N /\
  downtime (complete (Responded 1000 1007 204 "10:00:00") Shrink.second)
    = 1%N /\
  history (complete (Responded 1000 1007 204 "10:00:00") Shrink.second) =
    replicate 17 HBlank ++ [HNum 7; HNum 0; HNum 7] /\
  lastCheck (complete (Responded 1000 1007 204 "10:00:00") Shrink.second)
    = Some "10:00:00".
Proof.
  assert (H : (200 <= 204 < 300)%Z) by lia.
  split; [exact H|].
  exact (proj1 (proj2
    (probe_outcome_recorded (Responded 1000 1007 204 "10:00:00") Shrink.second))
    1000%Z 1007%Z 204%Z "10:00:00" eq_refl H).
Defined.

(** The first variant of the program does not look at the status: a
    response always marks the backend healthy there. *)
Lemma Legacy_any_response_is_success start now clock s :
  healthy (Legacy.on_response start now clock s) = true /\
  history (Legacy.on_response start now clock s) =
    shift_over_20 (history s ++ [HNum (now - start)%Z]).
Proof. done. Qed.

(** C6 (the first variant of the code does not do this).  The latest
    variant of [checkHealth] (part_000) marks a backend healthy exactly
    when the probe got a response whose status is in [200,300).  The
    response callback of the first variant (index.js) tests no status: a
    probe that got a response, whatever its status, marks the backend
    healthy, stores the elapsed time as the response time and pushes it on
    the history, counts a success and no failure, and writes the time of
    the check; only a transport error is recorded as a failure.  So a
    backend that is down and answers its probe with a 503 is marked
    healthy by index.js, where the latest variant keeps it down and pushes
    the down marker. *)
Theorem legacy_probe_ignores_status start now statusCode clock s :
  healthy (complete (Responded start now statusCode clock) s) =
    is_2xx statusCode /\
  healthy (Legacy.complete (Responded start now statusCode clock) s) = true /\
  responseTime (Legacy.complete (Responded start now statusCode clock) s) =
    Some (now - start)%Z /\
  uptime (Legacy.complete (Responded start now statusCode clock) s) =
    (uptime s + 1)%N /\
  downtime (Legacy.complete (Responded start now statusCode clock) s) =
    downtime s /\
  history (Legacy.complete (Responded start now statusCode clock) s) =
    shift_over_20 (history s ++ [HNum (now - start)%Z]) /\
  lastCheck (Legacy.complete (Responded start now statusCode clock) s) =
    Some clock /\
  Legacy.complete (Errored clock) s = complete (Errored clock) s /\
  is_2xx 503 = false /\
  healthy Shrink.second = false /\
  healthy (Legacy.complete (Responded 1000 1007 503 "10:00:00") Shrink.second)
    = true /\
  history (Legacy.complete (Responded 1000 1007 503 "10:00:00") Shrink.second)
    = replicate 17 HBlank ++ [HNum 7; HNum 0; HNum 7] /\
  healthy (complete (Responded 1000 1007 503 "10:00:00") Shrink.second)
    = false /\
  history (complete (Responded 1000 1007 503 "10:00:00") Shrink.second)
    = replicate 17 HBlank ++ [HNum 7; HNum 0; HNum 0].
Proof.
  split.
  { cbn. by destruct (is_2xx statusCode). }
  repeat split; vm_compute; reflexivity.
Qed.

(** ** The history window *)

Lemma shift_over_20_bound (h : list HistEntry) x :
  length h <= 20 -> length (shift_over_20 (h ++ [x])) <= 20.
Proof.
  intros Hlen. unfold shift_over_20.
  destruct (Nat.ltb _ _) eqn:E.
  - rewrite length_tl, length_app. cbn. lia.
  - apply Nat.ltb_ge in E. done.
Qed.

Section FullWindow.
Variable h : list HistEntry.
Hypothesis full : length h = 20.

Lemma shift_over_20_full x : shift_over_20 (h ++ [x]) = tail h ++ [x].
Proof.
  unfold shift_over_20. rewrite length_app, full. cbn.
  destruct h; [done|]. reflexivity.
Qed.

Lemma shift_over_20_length x : length (shift_over_20 (h ++ [x])) = 20.
Proof.
  rewrite shift_over_20_full, length_app, length_tl, full. reflexivity.
Qed.
End FullWindow.

Lemma complete_full p s :
  length (history s) = 20 -> length (history (complete p s)) = 20.
Proof. intros Hlen. rewrite complete_history. by apply shift_over_20_length. Qed.

Lemma completes_window ps : forall s,
  length (history s) = 20 ->
  length (history (completes ps s)) = 20 /\
  history (completes ps s) = drop (length ps) (history s ++ map pushed ps).
Proof.
  induction ps as [|p ps IH]; intros s Hlen.
  - cbn. by rewrite app_nil_r.
  - cbn [completes foldl]. fold (completes ps (complete p s)).
    destruct (IH (complete p s) (complete_full p s Hlen)) as [IHlen IHh].
    split; [done|]. rewrite IHh, complete_history.
    rewrite shift_over_20_full by done.
    destruct (history s) as [|x h]; [done|].
    cbn. by rewrite <- app_assoc.
Qed.

Lemma resolveTarget_frame clientId st r st' :
  resolveTarget clientId st = (r, st') ->
  heap st' = heap st /\ servers st' = servers st.
Proof.
  unfold resolveTarget. run.
  destruct (truthy (getStickyServer clientId st)); cbn.
  - by intros [= <- <-].
  - destruct (chooseServer st) as [[t|e] st1] eqn:Hc;
      apply chooseServer_frame in Hc as (Hh & Hs & _); [|by intros [= <- <-]].
    destruct (truthy t); [destruct t as [u|]|]; cbn; by intros [= <- <-].
Qed.

Lemma handler_frame clientId st r st' :
  handler clientId st = (r, st') ->
  heap st' = heap st /\ servers st' = servers st.
Proof.
  unfold handler, bind.
  destruct (resolveTarget clientId st) as [[t|e] st1] eqn:Hr;
    apply resolveTarget_frame in Hr; [|by intros [= <- <-]].
  destruct (truthy t); [destruct t|]; cbn; by intros [= <- <-].
Qed.

Lemma on_proxy_error_frame retry st r st' :
  on_proxy_error retry st = (r, st') ->
  heap st' = heap st /\ servers st' = servers st.
Proof.
  destruct retry; cbn.
  - by intros [= <- <-].
  - unfold bind. destruct (chooseServer st) as [[[t|]|e] st1] eqn:Hc;
      apply chooseServer_frame in Hc as (? & ? & _); by intros [= <- <-].
Qed.

Lemma reload_ok input st st' :
  reload input st = (Ok tt, st') ->
  exists data,
    input = Descriptors data /\
    st' = mkState (heap st ++ map fresh_backend data)
                  (seq (length (heap st)) (length data))
                  (index st) (stickyMap st).
Proof.
  destruct input as [e| |data]; cbn; [done|done|].
  intros [= <-]. by exists data.
Qed.

(** When [checkHealth] returns, it has issued one probe per object of the
    registry, and every address of the registry was usable. *)
Lemma checkHealth_ok usable st issued :
  checkHealth usable st = Ok issued ->
  issued = servers st /\
  Forall (fun b => usable (url b) = true) (registry st).
Proof.
  unfold checkHealth.
  destruct (forallb usable (map url (registry st))) eqn:Hu; [|done].
  intros [= <-]. split; [done|].
  apply Forall_forall. intros b Hb.
  apply (proj1 (forallb_forall _ _) Hu), in_map. by apply list_elem_of_In.
Qed.

(** One unusable address in the registry and the timer's callback ends
    with an exception. *)
Lemma checkHealth_throws usable st b :
  b ∈ registry st -> usable (url b) = false ->
  checkHealth usable st = Throw TypeError.
Proof.
  intros Hb Hu. unfold checkHealth.
  destruct (forallb usable (map url (registry st))) eqn:Hall; [|done].
  apply list_elem_of_In in Hb.
  rewrite (proj1 (forallb_forall _ _) Hall (url b) (in_map url _ _ Hb)) in Hu.
  done.
Qed.

(** A registry entry without a scheme: the first tick of the timer ends
    with an exception. *)
Example tick_with_unusable_address :
  wstep (Tick Shrink.usable)
        (mkWorld (snd (reload (Descriptors [mkDescriptor "10.0.0.1:3000" None])
                              (mkState [] [] 0 ∅))) [] []) =
    Throw TypeError.
Proof. vm_compute. reflexivity. Qed.

Lemma fresh_histories_full data :
  Forall (fun b => length (history b) = 20) (map fresh_backend data).
Proof. apply Forall_fmap, Forall_true. done. Qed.

Lemma wstep_histories_full ev w w' :
  wstep ev w = Ok w' -> histories_full (prog w) -> histories_full (prog w').
Proof.
  unfold histories_full. destruct ev as [input|usable|i p|clientId|j|j]; cbn.
  - destruct (reload input (prog w)) as [[[]|e] st'] eqn:Hr; [|done].
    intros [= <-] H. cbn. apply reload_ok in Hr as (data & _ & ->). cbn.
    apply Forall_app. split; [done|apply fresh_histories_full].
  - destruct (checkHealth usable (prog w)); [|done]. by intros [= <-].
  - destruct (probes w !! i) as [l|]; intros [= <-]; [|done]. cbn.
    intros H. apply Forall_alter; [done|]. intros b _. apply complete_full.
  - destruct (handler clientId (prog w)) as [[[status body|t retry]|e] st'] eqn:Hh;
      [| |done]; apply handler_frame in Hh as [Hh _];
      intros [= <-]; cbn; by rewrite Hh.
  - by intros [= <-].
  - destruct (inflight w !! j) as [[t retry]|]; [|by intros [= <-]].
    destruct (on_proxy_error retry (prog w)) as [[[status body|t' retry']|e] st'] eqn:Hp;
      [| |done]; apply on_proxy_error_frame in Hp as [Hh _];
      intros [= <-]; cbn; by rewrite Hh.
Qed.

Lemma wrun_histories_full evs : forall w w',
  wrun evs w = Ok w' -> histories_full (prog w) -> histories_full (prog w').
Proof.
  induction evs as [|ev evs IH]; intros w w'; cbn.
  - by intros [= <-].
  - destruct (wstep ev w) as [w1|e] eqn:Hs; [|done].
    intros Hr Hw. eapply IH; [done|]. by eapply wstep_histories_full.
Qed.

Lemma reachable_histories_full w : reachable w -> histories_full (prog w).
Proof.
  intros (input & evs & w0 & Hb & Hr).
  eapply wrun_histories_full; [done|].
  unfold boot in Hb.
  destruct (reload input _) as [[[]|e] st'] eqn:Hl; [|done].
  injection Hb as <-. apply reload_ok in Hl as (data & _ & ->).
  cbn. apply fresh_histories_full.
Qed.

Lemma registry_in_heap st b : b ∈ registry st -> b ∈ heap st.
Proof.
  unfold registry. rewrite list_elem_of_omap. intros (l & _ & Hl).
  by eapply list_elem_of_lookup_2.
Qed.

(** C7.  In every state the process can reach, every backend object of
    the store (those of the registry are among them) has exactly twenty
    history entries, so never more than twenty.  A probe that completes on
    it removes the oldest entry and adds its own at the end; after any
    sequence of probes the history is the last twenty entries of the old
    history followed by the pushed entries, in order. *)
Theorem history_capacity_fifo w b :
  reachable w ->
  b ∈ heap (prog w) ->
  length (history b) <= 20 /\
  (forall p, history (complete p b) = tail (history b) ++ [pushed p]) /\
  (forall ps,
     length (history (completes ps b)) = 20 /\
     length (history (completes ps b)) <= 20 /\
     history (completes ps b) =
       drop (length ps) (history b ++ map pushed ps)).
Proof.
  intros Hw Hb. apply reachable_histories_full in Hw.
  unfold histories_full in Hw. rewrite Forall_forall in Hw.
  specialize (Hw b Hb). split; [lia|]. split.
  - intros p. rewrite complete_history. by apply shift_over_20_full.
  - intros ps. destruct (completes_window ps b Hw) as [Hlen Hh].
    split; [done|]. split; [lia|done].
Qed.

Lemma history_capacity_fifo_witness :
  reachable Shrink.world /\
  Shrink.second ∈ heap (prog Shrink.world) /\
  history (completes [Shrink.up; Shrink.down] Shrink.second) =
    replicate 16 HBlank ++ [HNum 7; HNum 0; HNum 7; HNum 0].
Proof.
  assert (H : Shrink.second ∈ heap (prog Shrink.world)).
  { apply (list_elem_of_lookup_2 _ 1). vm_compute. reflexivity. }
  split; [exact Shrink_reachable|]. split; [exact H|].
  exact (proj2 (proj2 (proj2 (proj2
    (history_capacity_fifo _ _ Shrink_reachable H))
    [Shrink.up; Shrink.down]))).
Defined.

(** ** Reload *)

Lemma omap_lookup_fresh (new : list Backend) : forall old : list Backend,
  omap (fun l : nat => (old ++ new) !! l) (seq (length old) (length new)) = new.
Proof.
  induction new as [|x new IH]; intros old; [done|].
  cbn [length seq omap list_omap]. rewrite list_lookup_middle by done.
  f_equal. rewrite (cons_middle x old new), app_assoc.
  replace (S (length old)) with (length (old ++ [x])); [apply IH|].
  rewrite length_app. cbn. lia.
Qed.

Lemma fresh_backend_initial s : initial (fresh_backend s).
Proof. by repeat split. Qed.

(** C8.  Whatever the state before, and whatever the new list of
    descriptors, the reload succeeds and the new registry consists of one
    new object per descriptor, in order, every one in its initial state:
    not healthy, no response time, no time of check, both counters zero,
    twenty blank history slots.  This holds also for an address that the
    previous registry had, because no object of the previous registry is
    taken over: the new registry refers to newly allocated objects only.
    The cursor and the sticky table are not touched. *)
Theorem reload_resets_every_backend st data :
  exists st',
    reload (Descriptors data) st = (Ok tt, st') /\
    registry st' = map fresh_backend data /\
    map url (registry st') = map d_url data /\
    Forall initial (registry st') /\
    Forall (fun l : nat => heap st !! l = None) (servers st') /\
    index st' = index st /\ stickyMap st' = stickyMap st.
Proof.
  eexists. split; [reflexivity|].
  assert (Hreg : registry
      (set_servers (seq (length (heap st)) (length data))
         (set_heap (heap st ++ map fresh_backend data) st)) =
      map fresh_backend data).
  { unfold registry. cbn [heap servers set_servers set_heap].
    rewrite <- (length_map fresh_backend data). apply omap_lookup_fresh. }
  split; [exact Hreg|]. rewrite Hreg. split; [|split; [|split]].
  - rewrite map_map. reflexivity.
  - apply Forall_fmap, Forall_true. intros s. apply fresh_backend_initial.
  - cbn [heap servers set_servers set_heap]. apply Forall_forall.
    intros l Hl. apply lookup_ge_None_2.
    apply list_elem_of_In, in_seq in Hl. lia.
  - done.
Qed.

(** The first backend of the run [Shrink] is healthy; a reload with the
    same addresses puts a new, initial object at its place. *)
Example reload_same_address :
  (healthy <$> registry Shrink.state !! 0) = Some true /\
  registry (snd (reload Shrink.config Shrink.state)) !! 0 =
    Some (fresh_backend (mkDescriptor Shrink.A None)).
Proof. split; vm_compute; reflexivity. Qed.

(** A probe that was issued before the reload and completes after it
    mutates an object of the old registry; the new registry does not see
    it. *)
Lemma stale_probe_invisible st data st' l p :
  reload (Descriptors data) st = (Ok tt, st') ->
  l < length (heap st) ->
  registry (probe_completes l p st') = registry st'.
Proof.
  intros Hr Hl. apply reload_ok in Hr as (data' & [= <-] & ->).
  unfold registry, probe_completes. cbn [heap servers set_heap].
  apply list_omap_ext, Forall_Forall2_diag, Forall_forall. intros l' Hl'.
  apply list_elem_of_In, in_seq in Hl'.
  rewrite list_lookup_alter_ne by lia. done.
Qed.

(** ** Malformed backend list *)

(** C9 (as amended).  On a malformed backend list the reload throws
    before anything is assigned: the state at the throw is the state
    before, registry included, so nothing is applied in part.  The
    exception is not caught: it leaves the watcher's callback and the
    process exits.  At start-up the same input keeps the process from
    starting. *)
Theorem malformed_reload_throws input w :
  malformed input ->
  exists e,
    reload input (prog w) = (Throw e, prog w) /\
    watcher_fires input (Running w) = Exited e /\
    boot input = Throw e.
Proof.
  destruct input as [e| |data]; cbn; [intros _|intros _|done].
  - by exists e.
  - by exists TypeError.
Qed.

Lemma malformed_reload_throws_witness :
  malformed (ParseThrows SyntaxError) /\
  exists e,
    reload (ParseThrows SyntaxError) (prog Shrink.world) =
      (Throw e, prog Shrink.world) /\
    watcher_fires (ParseThrows SyntaxError) (Running Shrink.world) = Exited e /\
    boot (ParseThrows SyntaxError) = Throw e.
Proof.
  split; [exact I|].
  exact (malformed_reload_throws (ParseThrows SyntaxError) Shrink.world I).
Defined.

(** C9 as stated fails: when the watcher fires on a file that does not
    parse, the process does not go on with the previous registry, it
    exits. *)
Lemma malformed_reload_is_fatal :
  malformed (ParseThrows SyntaxError) /\
  ~ (exists w',
       watcher_fires (ParseThrows SyntaxError) (Running Shrink.world) =
         Running w' /\
       servers (prog w') = servers (prog Shrink.world)).
Proof.
  split; [exact I|]. intros (w' & H & _). cbn in H. discriminate H.
Qed.

(** * Further properties of the program *)

(** ** Selection *)

Lemma registry_frame st st' :
  heap st' = heap st -> servers st' = servers st -> registry st' = registry st.
Proof. intros Hh Hs. unfold registry. by rewrite Hh, Hs. Qed.

Lemma healthy_target_frame st st' t :
  heap st' = heap st -> servers st' = servers st ->
  healthy_target st t -> healthy_target st' t.
Proof.
  intros Hh Hs. destruct t as [u|]; [|done]. cbn.
  by rewrite (registry_frame _ _ Hh Hs).
Qed.

Lemma alive_in_registry st i s :
  alive_servers st !! i = Some s -> s ∈ registry st /\ healthy s = true.
Proof.
  intros Hs. apply list_elem_of_lookup_2, list_elem_of_In in Hs.
  apply filter_In in Hs as [Hin Hh]. by apply list_elem_of_In in Hin.
Qed.

Lemma chooseServer_inv st t st' :
  chooseServer st = (Ok t, st') ->
  match t with
  | None => alive_servers st = [] /\ st' = st
  | Some u =>
      exists s,
        alive_servers st !! index st = Some s /\ url s = u /\
        st' = set_index ((index st + 1) mod length (alive_servers st)) st
  end.
Proof.
  unfold chooseServer.
  destruct (alive_servers st) as [|a al] eqn:E; cbn [length Nat.eqb].
  - by intros [= <- <-].
  - destruct ((a :: al) !! index st) as [s|] eqn:Hs; [|done].
    intros [= <- <-]. by exists s.
Qed.

(** X1.  When [chooseServer] returns an address, it is the address of the
    backend at the cursor in the healthy subset, that backend is in the
    registry and marked healthy, and the cursor it leaves is inside the
    healthy subset; when it returns null, no backend is healthy and the
    state is as before. *)
Theorem chooseServer_returns_healthy st t st' :
  chooseServer st = (Ok t, st') ->
  match t with
  | None => alive_servers st = [] /\ st' = st
  | Some u =>
      (exists s,
         alive_servers st !! index st = Some s /\ url s = u /\
         s ∈ registry st /\ healthy s = true) /\
      index st' = (index st + 1) mod length (alive_servers st) /\
      index st' < length (alive_servers st') /\
      heap st' = heap st /\ servers st' = servers st /\
      stickyMap st' = stickyMap st
  end.
Proof.
  intros Hc. pose proof (chooseServer_inv _ _ _ Hc) as Hinv.
  destruct t as [u|]; [|done].
  destruct Hinv as (s & Hs & Hu & ->).
  destruct (alive_in_registry _ _ _ Hs) as [Hin Hh].
  split; [by exists s|]. split; [done|]. split; [|done].
  rewrite alive_servers_set_index. cbn [index set_index].
  apply Nat.mod_upper_bound. apply lookup_lt_Some in Hs. lia.
Qed.

Lemma chooseServer_returns_healthy_witness :
  chooseServer ABC.state =
    (Ok (Some "http://a"), set_index 1 ABC.state) /\
  index (set_index 1 ABC.state) < length (alive_servers (set_index 1 ABC.state)).
Proof.
  assert (H : chooseServer ABC.state =
    (Ok (Some "http://a"), set_index 1 ABC.state)).
  { vm_compute. reflexivity. }
  split; [exact H|].
  exact (proj1 (proj2 (proj2 (chooseServer_returns_healthy _ _ _ H)))).
Defined.

Lemma chooseServer_target st t st' :
  chooseServer st = (Ok t, st') -> healthy_target st t.
Proof.
  intros Hc. apply chooseServer_inv in Hc. destruct t as [u|]; [|done].
  destruct Hc as (s & Hs & Hu & _). exists s.
  destruct (alive_in_registry _ _ _ Hs) as [Hin Hh]. done.
Qed.

(** What [resolveTarget] does to the sticky table: nothing, or one write
    for the client, of a non-empty address of a healthy backend. *)
Lemma resolveTarget_sticky_shape clientId st r st' :
  resolveTarget clientId st = (r, st') ->
  stickyMap st' = stickyMap st \/
  exists u,
    r = Ok (Some u) /\ u <> EmptyString /\
    truthy (getStickyServer clientId st) = false /\
    stickyMap st' = <[clientId := u]> (stickyMap st) /\
    exists s, s ∈ registry st /\ url s = u /\ healthy s = true.
Proof.
  unfold resolveTarget. run.
  destruct (truthy (getStickyServer clientId st)) eqn:Hst; cbn.
  - intros [= <- <-]. by left.
  - destruct (chooseServer st) as [[t|e] st1] eqn:Hc.
    + pose proof (chooseServer_target _ _ _ Hc) as Ht.
      apply chooseServer_frame in Hc as (_ & _ & Hm).
      destruct (truthy t) eqn:Htt.
      * apply truthy_Some in Htt as (u & -> & Hne). cbn.
        intros [= <- <-]. right. exists u. cbn. rewrite Hm.
        repeat split; done.
      * cbn. intros [= <- <-]. by left.
    + apply chooseServer_frame in Hc as (_ & _ & Hm).
      intros [= <- <-]. by left.
Qed.

Lemma chooseServer_throw st e st' :
  chooseServer st = (Throw e, st') ->
  e = TypeError /\ st' = st /\
  alive_servers st <> [] /\ length (alive_servers st) <= index st.
Proof.
  unfold chooseServer.
  destruct (alive_servers st) as [|a al] eqn:E; cbn [length Nat.eqb]; [done|].
  destruct ((a :: al) !! index st) as [s|] eqn:Hs; [done|].
  intros [= <- <-]. apply lookup_ge_None_1 in Hs. done.
Qed.


Lemma resolveTarget_throw clientId st e st' :
  resolveTarget clientId st = (Throw e, st') -> e = TypeError /\ st' = st.
Proof.
  unfold resolveTarget. run.
  destruct (truthy (getStickyServer clientId st)); cbn; [done|].
  destruct (chooseServer st) as [[t1|e1] st1] eqn:Hc.
  - destruct (truthy t1); [destruct t1|]; cbn; done.
  - apply chooseServer_throw in Hc as (-> & -> & _). by intros [= <- <-].
Qed.

(** The three ways the handler ends. *)
Lemma handler_inv clientId st r st' :
  handler clientId st = (r, st') ->
  (r = Ok (Respond 503 "No backend servers alive") /\
   resolveTarget clientId st = (Ok None, st') \/
   r = Ok (Respond 503 "No backend servers alive") /\
   resolveTarget clientId st = (Ok (Some EmptyString), st')) \/
  (exists u, r = Ok (ProxyWeb (Some u) false) /\ u <> EmptyString /\
             resolveTarget clientId st = (Ok (Some u), st')) \/
  (r = Throw TypeError /\ st' = st).
Proof.
  unfold handler, bind.
  destruct (resolveTarget clientId st) as [[t|e] st1] eqn:Hr.
  - destruct (truthy t) eqn:Ht; cbn [negb].
    + apply truthy_Some in Ht as (u & -> & Hne). rewrite send_Some.
      intros [= <- <-]. right. left. by exists u.
    + intros [= <- <-]. left. destruct t as [u|]; [|by left]. right.
      cbn in Ht. apply negb_false_iff, bool_decide_eq_true in Ht. by subst u.
  - apply resolveTarget_throw in Hr as [-> ->]. intros [= <- <-].
    right. by right.
Qed.

Lemma reachable_invariant (P : World -> Prop) :
  (forall input w0, boot input = Ok w0 -> P w0) ->
  (forall ev w w', P w -> wstep ev w = Ok w' -> P w') ->
  forall w, reachable w -> P w.
Proof.
  intros Hboot Hstep w (input & evs & w0 & Hb & Hr).
  apply Hboot in Hb. clear input. revert w0 Hb Hr.
  induction evs as [|ev evs IH]; intros w0 Hb; cbn.
  - by intros [= <-].
  - destruct (wstep ev w0) as [w1|e] eqn:Hs; [|done].
    apply IH. by eapply Hstep.
Qed.

Lemma boot_ok input w0 :
  boot input = Ok w0 ->
  exists data,
    input = Descriptors data /\
    w0 = mkWorld (mkState (map fresh_backend data) (seq 0 (length data)) 0 ∅)
                 [] [].
Proof.
  unfold boot. destruct (reload input _) as [[[]|e] st] eqn:Hr; [|done].
  apply reload_ok in Hr as (data & -> & ->). intros [= <-]. by exists data.
Qed.









Lemma drive_forwards_head env t retry st :
  exists ts, forwards (drive env (ProxyWeb t retry) st) = t :: ts.
Proof.
  destruct env as [|[|meanwhile] env]; cbn [drive]; [by eexists..|].
  destruct (on_proxy_error retry (meanwhile st)) as [[a'|e] st']; by eexists.
Qed.





Lemma Outage_reachable : reachable Outage.world.
Proof.
  unfold reachable. exists Outage.config, Outage.events.
  eexists. split; vm_compute; reflexivity.
Qed.

(** A client is sent to the one backend; the backend goes down before the
    forward fails; the request ends with the Error of [proxy.web], after
    one forward, with no answer. *)
Example request_during_outage :
  dispatch [Fails (probe_completes 0 Shrink.down); Answers] Shrink.F
           (mkState [ABC.up "http://a"] [0] 0 ∅) =
    mkRun [Some "http://a"] (Threw TargetError)
          (probe_completes 0 Shrink.down
             (snd (handler Shrink.F (mkState [ABC.up "http://a"] [0] 0 ∅)))).
Proof. vm_compute. reflexivity. Qed.

(** X3.  When the error callback of a first forward runs while no backend
    is healthy, the request is answered neither 503 nor 500:
    [chooseServer] returns null, [proxy.web] is called with that null
    target and raises its Error, which nothing catches: the exception
    leaves the callback and the program's variables are as before.  So a
    request whose first forward fails after every backend has gone down
    ends with that exception, after one forward. *)
Theorem retry_without_backend w j t :
  inflight w !! j = Some (t, false) ->
  Forall (fun b => healthy b = false) (registry (prog w)) ->
  chooseServer (prog w) = (Ok None, prog w) /\
  on_proxy_error false (prog w) = (Throw TargetError, prog w) /\
  wstep (ForwardError j) w = Throw TargetError /\
  (forall clientId st between env,
     handler clientId st =
       (Ok (ProxyWeb t false), snd (handler clientId st)) ->
     between (snd (handler clientId st)) = prog w ->
     dispatch (Fails between :: env) clientId st =
       mkRun [t] (Threw TargetError) (prog w)).
Proof.
  intros Hj Hdown. apply alive_servers_nil in Hdown.
  assert (Hc := chooseServer_none _ Hdown).
  assert (Hp : on_proxy_error false (prog w) = (Throw TargetError, prog w)).
  { unfold on_proxy_error, bind. cbn [negb]. by rewrite Hc. }
  split; [exact Hc|]. split; [exact Hp|]. split.
  - cbn [wstep]. by rewrite Hj, Hp.
  - intros clientId st between env Hh Hb. unfold dispatch. rewrite Hh.
    cbn [drive]. by rewrite Hb, Hp.
Qed.

Lemma retry_without_backend_witness :
  reachable Outage.world /\
  inflight Outage.world !! 0 = Some (Some Shrink.A, false) /\
  Forall (fun b => healthy b = false) (registry (prog Outage.world)) /\
  wstep (ForwardError 0) Outage.world = Throw TargetError.
Proof.
  assert (Hj : inflight Outage.world !! 0 = Some (Some Shrink.A, false)).
  { vm_compute. reflexivity. }
  assert (Hd : Forall (fun b => healthy b = false)
                 (registry (prog Outage.world))).
  { vm_compute. repeat constructor. }
  split; [exact Outage_reachable|]. split; [exact Hj|]. split; [exact Hd|].
  exact (proj1 (proj2 (proj2
    (retry_without_backend Outage.world 0 (Some Shrink.A) Hj Hd)))).
Defined.

(** ** The sticky table *)

Lemma handler_sticky_shape clientId st r st' :
  handler clientId st = (r, st') ->
  stickyMap st' = stickyMap st \/
  exists u,
    r = Ok (ProxyWeb (Some u) false) /\ u <> EmptyString /\
    stickyMap st' = <[clientId := u]> (stickyMap st) /\
    exists s, s ∈ registry st /\ url s = u /\ healthy s = true.
Proof.
  intros Hh.
  apply handler_inv in Hh as [[[-> Hr]|[-> Hr]]|[(u & -> & Hne & Hr)|[-> ->]]];
    [| | |by left];
    apply resolveTarget_sticky_shape in Hr
      as [?|(u' & Hu' & Hne' & _ & Hm & Hs)]; try by left.
  - by injection Hu' as <-.
  - injection Hu' as <-. right. by exists u.
Qed.

(** X5.  Handling a request of one client leaves the bindings of all
    other clients, the registry and the backend objects as they are; the
    client's own binding is kept, or replaced by the target the request is
    sent to. *)
Theorem handler_leaves_other_clients clientId st r st' :
  handler clientId st = (r, st') ->
  (forall c, c <> clientId -> stickyMap st' !! c = stickyMap st !! c) /\
  heap st' = heap st /\ servers st' = servers st /\
  (stickyMap st' !! clientId = stickyMap st !! clientId \/
   exists u, r = Ok (ProxyWeb (Some u) false) /\
             stickyMap st' !! clientId = Some u).
Proof.
  intros Hh. pose proof (handler_frame _ _ _ _ Hh) as [Hheap Hservers].
  apply handler_sticky_shape in Hh as [Hm|(u & -> & _ & Hm & _)]; rewrite Hm.
  - repeat split; try done. by left.
  - repeat split; try done.
    + intros c Hc. by rewrite lookup_insert_ne.
    + right. exists u. split; [done|]. apply lookup_insert_eq.
Qed.

Lemma handler_leaves_other_clients_witness :
  handler Shrink.F ABC.state =
    (Ok (ProxyWeb (Some "http://a") false), snd (handler Shrink.F ABC.state)) /\
  (forall c, c <> Shrink.F ->
     stickyMap (snd (handler Shrink.F ABC.state)) !! c =
       stickyMap ABC.state !! c).
Proof.
  assert (H : handler Shrink.F ABC.state =
    (Ok (ProxyWeb (Some "http://a") false), snd (handler Shrink.F ABC.state))).
  { vm_compute. reflexivity. }
  split; [exact H|].
  exact (proj1 (handler_leaves_other_clients Shrink.F ABC.state _ _ H)).
Defined.

Lemma wstep_sticky ev w w' :
  wstep ev w = Ok w' ->
  stickyMap (prog w') = stickyMap (prog w) \/
  exists clientId u,
    u <> EmptyString /\
    stickyMap (prog w') = <[clientId := u]> (stickyMap (prog w)) /\
    exists s, s ∈ registry (prog w) /\ url s = u /\ healthy s = true.
Proof.
  destruct ev as [input|usable|i p|clientId|j|j]; cbn.
  - destruct (reload input (prog w)) as [[[]|e] st'] eqn:Hr; [|done].
    apply reload_ok in Hr as (data & _ & ->). intros [= <-]. by left.
  - destruct (checkHealth usable (prog w)); [|done].
    intros [= <-]. by left.
  - destruct (probes w !! i); intros [= <-]; by left.
  - destruct (handler clientId (prog w)) as [r st'] eqn:Hh.
    apply handler_sticky_shape in Hh as Hshape.
    destruct r as [[status body|t retry]|e]; [| |done]; intros [= <-]; cbn;
      (destruct Hshape as [?|(u & _ & Hne & Hm & Hs)];
       [by left|right; by exists clientId, u]).
  - intros [= <-]. by left.
  - destruct (inflight w !! j) as [[t retry]|]; [|intros [= <-]; by left].
    destruct (on_proxy_error retry (prog w)) as [r st'] eqn:Hp.
    apply on_proxy_error_sticky in Hp.
    destruct r as [[status body|t' retry']|e]; [| |done];
      intros [= <-]; by left.
Qed.

(** X6.  No callback removes an entry of the sticky table: a client that
    is bound stays bound, through every run of the process. *)
Theorem sticky_entries_never_removed evs : forall w w' clientId,
  wrun evs w = Ok w' ->
  is_Some (stickyMap (prog w) !! clientId) ->
  is_Some (stickyMap (prog w') !! clientId).
Proof.
  induction evs as [|ev evs IH]; intros w w' c; cbn.
  - by intros [= <-].
  - destruct (wstep ev w) as [w1|e] eqn:Hs; [|done].
    intros Hr Hc. apply (IH w1); [done|].
    apply wstep_sticky in Hs as [->|(c1 & u & _ & -> & _)]; [done|].
    destruct (decide (c1 = c)) as [->|Hne].
    + rewrite lookup_insert_eq. by eexists.
    + by rewrite lookup_insert_ne.
Qed.

Lemma sticky_entries_never_removed_witness :
  wrun [Watch Shrink.config; Incoming Shrink.G] Shrink.world =
    Ok (mkWorld (snd (handler Shrink.G (snd (reload Shrink.config Shrink.state))))
          (probes Shrink.world) (inflight Shrink.world)) /\
  is_Some (stickyMap (prog Shrink.world) !! Shrink.F) /\
  is_Some (stickyMap
             (snd (handler Shrink.G (snd (reload Shrink.config Shrink.state))))
             !! Shrink.F).
Proof.
  assert (Hr : wrun [Watch Shrink.config; Incoming Shrink.G] Shrink.world =
    Ok (mkWorld (snd (handler Shrink.G (snd (reload Shrink.config Shrink.state))))
          (probes Shrink.world) (inflight Shrink.world))).
  { vm_compute. reflexivity. }
  assert (H : is_Some (stickyMap (prog Shrink.world) !! Shrink.F)).
  { exists Shrink.A. vm_compute. reflexivity. }
  split; [exact Hr|]. split; [exact H|].
  exact (sticky_entries_never_removed _ Shrink.world _ Shrink.F Hr H).
Defined.

(** ** Invariants of the running process *)

Lemma complete_url p s : url (complete p s) = url s.
Proof. destruct p; cbn; [destruct (is_2xx _)|]; reflexivity. Qed.

Lemma complete_region p s : region (complete p s) = region s.
Proof. destruct p; cbn; [destruct (is_2xx _)|]; reflexivity. Qed.

(** The objects of the store keep their addresses, and the store only
    grows. *)
Lemma wstep_heap_urls ev w w' b :
  wstep ev w = Ok w' ->
  b ∈ heap (prog w) ->
  exists b', b' ∈ heap (prog w') /\ url b' = url b.
Proof.
  intros Hs Hb. destruct ev as [input|usable|i p|clientId|j|j]; cbn in Hs.
  - destruct (reload input (prog w)) as [[[]|e] st'] eqn:Hr; [|done].
    apply reload_ok in Hr as (data & _ & ->). injection Hs as <-. cbn.
    exists b. split; [|done]. apply elem_of_app. by left.
  - destruct (checkHealth usable (prog w)); [|done].
    injection Hs as <-. by exists b.
  - destruct (probes w !! i) as [l|]; injection Hs as <-; [|by exists b].
    cbn. apply list_elem_of_lookup in Hb as [k Hk].
    destruct (decide (l = k)) as [->|Hne].
    + exists (complete p b). split; [|apply complete_url].
      apply (list_elem_of_lookup_2 _ k). by rewrite list_lookup_alter_eq, Hk.
    + exists b. split; [|done].
      apply (list_elem_of_lookup_2 _ k). by rewrite list_lookup_alter_ne.
  - destruct (handler clientId (prog w)) as [r st'] eqn:Hh.
    apply handler_frame in Hh as [Hheap _].
    destruct r as [[status body|t retry]|e]; [| |done];
      injection Hs as <-; cbn; rewrite Hheap; by exists b.
  - injection Hs as <-. by exists b.
  - destruct (inflight w !! j) as [[t retry]|]; [|injection Hs as <-; by exists b].
    destruct (on_proxy_error retry (prog w)) as [r st'] eqn:Hp.
    apply on_proxy_error_frame in Hp as [Hheap _].
    destruct r as [[status body|t' retry']|e]; [| |done];
      injection Hs as <-; cbn; rewrite Hheap; by exists b.
Qed.

(** X7.  In every state the process can reach, every entry of the sticky
    table holds a non-empty string that is the address of a backend object
    loaded at some time (of the current registry or of an earlier one). *)
Theorem sticky_values_are_backend_addresses w clientId u :
  reachable w ->
  stickyMap (prog w) !! clientId = Some u ->
  u <> EmptyString /\ exists b, b ∈ heap (prog w) /\ url b = u.
Proof.
  intros Hw. revert clientId u. pattern w. revert w Hw.
  apply reachable_invariant.
  - intros input w0 Hb c u. apply boot_ok in Hb as (data & _ & ->). cbn.
    by rewrite lookup_empty.
  - intros ev w w' IH Hs c u Hc.
    assert (Hkeep : forall v, (exists b, b ∈ heap (prog w) /\ url b = v) ->
                              exists b, b ∈ heap (prog w') /\ url b = v).
    { intros v (b & Hb & <-). by eapply wstep_heap_urls. }
    apply wstep_sticky in Hs as [Hm|(c1 & u1 & Hne & Hm & s & Hin & Hu & _)];
      rewrite Hm in Hc.
    + destruct (IH c u Hc) as [? ?]. split; [done|]. by apply Hkeep.
    + destruct (decide (c1 = c)) as [->|Hcc].
      * rewrite lookup_insert_eq in Hc. injection Hc as <-. split; [done|].
        apply Hkeep. exists s. split; [|done]. by apply registry_in_heap.
      * rewrite lookup_insert_ne in Hc by done.
        destruct (IH c u Hc) as [? ?]. split; [done|]. by apply Hkeep.
Qed.

Lemma sticky_values_are_backend_addresses_witness :
  reachable Shrink.world /\
  stickyMap (prog Shrink.world) !! Shrink.G = Some Shrink.B /\
  Shrink.B <> EmptyString /\
  exists b, b ∈ heap (prog Shrink.world) /\ url b = Shrink.B.
Proof.
  assert (H : stickyMap (prog Shrink.world) !! Shrink.G = Some Shrink.B).
  { vm_compute. reflexivity. }
  split; [exact Shrink_reachable|]. split; [exact H|].
  exact (sticky_values_are_backend_addresses _ _ _ Shrink_reachable H).
Defined.

(** ** After a reload *)

Lemma registry_after_reload st data :
  registry (snd (reload (Descriptors data) st)) = map fresh_backend data.
Proof.
  unfold registry. cbn.
  rewrite <- (length_map fresh_backend data). apply omap_lookup_fresh.
Qed.

Lemma dispatch_none_alive env clientId st :
  alive_servers st = [] ->
  dispatch env clientId st =
    mkRun [] (Answered 503 "No backend servers alive") st.
Proof.
  intros Hal. unfold dispatch, handler, resolveTarget. run.
  rewrite (getStickyServer_none_alive _ _ Hal). cbn.
  rewrite (chooseServer_none _ Hal). cbn. apply drive_Respond.
Qed.

(** X8.  Right after a reload, and right after start-up, every request of
    every client is answered 503 and nothing is forwarded, whatever the
    new list and whatever the state before: the new backends are all
    marked down until a probe of theirs succeeds. *)
Theorem reload_then_unavailable st data env clientId :
  dispatch env clientId (snd (reload (Descriptors data) st)) =
    mkRun [] (Answered 503 "No backend servers alive")
          (snd (reload (Descriptors data) st)) /\
  (forall w0, boot (Descriptors data) = Ok w0 ->
     dispatch env clientId (prog w0) =
       mkRun [] (Answered 503 "No backend servers alive") (prog w0)).
Proof.
  assert (H : forall st0,
    alive_servers (snd (reload (Descriptors data) st0)) = []).
  { intros st0. apply alive_servers_nil. rewrite registry_after_reload.
    apply Forall_fmap, Forall_true. done. }
  split; [by apply dispatch_none_alive|].
  intros w0 [= <-]. apply dispatch_none_alive, (H (mkState [] [] 0 ∅)).
Qed.

(** ** Probes, counted *)

Lemma complete_summary p s :
  healthy (complete p s) = success p /\
  uptime (complete p s) = (uptime s + if success p then 1 else 0)%N /\
  downtime (complete p s) = (downtime s + if success p then 0 else 1)%N /\
  (responseTime (complete p s) <> None <-> success p = true) /\
  lastCheck (complete p s) <> None.
Proof.
  destruct p as [start now statusCode clock|clock]; cbn;
    [destruct (is_2xx statusCode)|]; cbn;
    repeat split; try done; try lia; by intros [].
Qed.

Lemma completes_snoc ps p s :
  completes (ps ++ [p]) s = complete p (completes ps s).
Proof. unfold completes. by rewrite foldl_app. Qed.

(** X9.  After any sequence of completed probes on a backend object, the
    success counter has grown by the number of successes, the failure
    counter by the number of failures, so together by the number of probes,
    and neither ever decreases; the health flag is the outcome of the
    probe that completed last, whatever came before. *)
Theorem probes_are_counted ps s :
  uptime (completes ps s) =
    (uptime s + N.of_nat (length (List.filter success ps)))%N /\
  downtime (completes ps s) =
    (downtime s +
     N.of_nat (length (List.filter (fun p => negb (success p)) ps)))%N /\
  (uptime (completes ps s) + downtime (completes ps s) =
     uptime s + downtime s + N.of_nat (length ps))%N /\
  (forall p, healthy (completes (ps ++ [p]) s) = success p).
Proof.
  assert (H : forall ps s,
    uptime (completes ps s) =
      (uptime s + N.of_nat (length (List.filter success ps)))%N /\
    downtime (completes ps s) =
      (downtime s +
       N.of_nat (length (List.filter (fun p => negb (success p)) ps)))%N).
  { clear. induction ps as [|p ps IH]; intros s; cbn [completes foldl].
    - cbn. lia.
    - fold (completes ps (complete p s)).
      destruct (IH (complete p s)) as [-> ->].
      destruct (complete_summary p s) as (_ & -> & -> & _).
      cbn [List.filter]. destruct (success p); cbn [negb length]; lia. }
  destruct (H ps s) as [Hu Hd]. split; [done|]. split; [done|]. split.
  - rewrite Hu, Hd.
    assert (length (List.filter success ps) +
            length (List.filter (fun p => negb (success p)) ps) = length ps).
    { clear. induction ps as [|p ps IH]; [done|]. cbn.
      destruct (success p); cbn; lia. }
    lia.
  - intros p. rewrite completes_snoc. apply complete_summary.
Qed.

(** ** Consistency of the backend objects *)

Lemma pushed_number p : pushed p = HNum (to_number (pushed p)).
Proof. destruct p; cbn; [destruct (is_2xx _)|]; reflexivity. Qed.

Lemma fresh_backend_consistent d : consistent (fresh_backend d).
Proof.
  repeat split; try done. by exists [].
Qed.

Lemma complete_consistent p b : consistent b -> consistent (complete p b).
Proof.
  intros (_ & _ & _ & nums & Hh & Hn).
  destruct (complete_summary p b) as (Hhe & Hu & Hd & Hr & Hl).
  assert (Hsum : (uptime (complete p b) + downtime (complete p b) =
                  uptime b + downtime b + 1)%N).
  { rewrite Hu, Hd. destruct (success p); lia. }
  split; [by rewrite Hhe, Hr|]. split; [split; [done|lia]|]. split; [done|].
  assert (Hlen : length (history b) = 20).
  { rewrite Hh, length_app, length_replicate, length_map. lia. }
  rewrite complete_history, (shift_over_20_full _ Hlen), Hsum, Hh.
  rewrite (pushed_number p). set (x := to_number (pushed p)).
  destruct (decide (length nums < 20)) as [Hlt|Hge].
  - exists (nums ++ [x]). split; [|rewrite length_app; cbn [length]; lia].
    rewrite length_app, map_app. cbn [length map].
    replace (20 - length nums) with (S (20 - (length nums + 1))) by lia.
    cbn [replicate app tail]. by rewrite <- app_assoc.
  - assert (Hfull : length nums = 20) by lia.
    destruct nums as [|y nums]; [done|]. cbn [length] in Hfull, Hn.
    exists (nums ++ [x]). split; [|rewrite length_app; cbn [length]; lia].
    rewrite length_app, map_app. cbn [length map].
    replace (length nums + 1) with 20 by lia.
    replace (20 - S (length nums)) with 0 by lia. done.
Qed.

Lemma wstep_heap_Forall (P : Backend -> Prop) ev w w' :
  (forall d, P (fresh_backend d)) ->
  (forall p b, P b -> P (complete p b)) ->
  wstep ev w = Ok w' ->
  Forall P (heap (prog w)) -> Forall P (heap (prog w')).
Proof.
  intros Hfresh Hcomplete.
  destruct ev as [input|usable|i p|clientId|j|j]; cbn.
  - destruct (reload input (prog w)) as [[[]|e] st'] eqn:Hr; [|done].
    intros [= <-] H. cbn. apply reload_ok in Hr as (data & _ & ->). cbn.
    apply Forall_app. split; [done|]. apply Forall_fmap, Forall_true. done.
  - destruct (checkHealth usable (prog w)); [|done].
    by intros [= <-].
  - destruct (probes w !! i) as [l|]; intros [= <-]; [|done]. cbn.
    intros H. apply Forall_alter; [done|]. intros b _. apply Hcomplete.
  - destruct (handler clientId (prog w)) as [[[status body|t retry]|e] st'] eqn:Hh;
      [| |done]; apply handler_frame in Hh as [Hh _];
      intros [= <-]; cbn; by rewrite Hh.
  - by intros [= <-].
  - destruct (inflight w !! j) as [[t retry]|]; [|by intros [= <-]].
    destruct (on_proxy_error retry (prog w)) as [[[status body|t' retry']|e] st'] eqn:Hp;
      [| |done]; apply on_proxy_error_frame in Hp as [Hh _];
      intros [= <-]; cbn; by rewrite Hh.
Qed.

(** X10.  In every state the process can reach, every backend object is
    consistent: it is marked healthy exactly when it holds a response
    time; it has no time of check exactly when both counters are zero, and
    then it is down with a blank history; and its history is blank slots
    followed by numbers, one number per completed probe up to twenty. *)
Theorem backends_stay_consistent w b :
  reachable w -> b ∈ heap (prog w) -> consistent b.
Proof.
  intros Hw. revert b. apply Forall_forall. pattern w. revert w Hw.
  apply reachable_invariant.
  - intros input w0 Hb. apply boot_ok in Hb as (data & _ & ->). cbn.
    apply Forall_fmap, Forall_true. intros d. apply fresh_backend_consistent.
  - intros ev w w' IH Hs. revert IH.
    apply (wstep_heap_Forall consistent ev);
      [apply fresh_backend_consistent|apply complete_consistent|done].
Qed.

Lemma backends_stay_consistent_witness :
  reachable Shrink.world /\
  Shrink.second ∈ heap (prog Shrink.world) /\
  consistent Shrink.second.
Proof.
  assert (H : Shrink.second ∈ heap (prog Shrink.world)).
  { apply (list_elem_of_lookup_2 _ 1). vm_compute. reflexivity. }
  split; [exact Shrink_reachable|]. split; [exact H|].
  exact (backends_stay_consistent _ _ Shrink_reachable H).
Defined.

(** ** The registry between reloads *)

Lemma wstep_well_formed ev w w' :
  wstep ev w = Ok w' -> well_formed w -> well_formed w'.
Proof.
  unfold well_formed. intros Hs [Hservers Hprobes].
  destruct ev as [input|usable|i p|clientId|j|j]; cbn in Hs.
  - destruct (reload input (prog w)) as [[[]|e] st'] eqn:Hr; [|done].
    apply reload_ok in Hr as (data & _ & ->). injection Hs as <-. cbn.
    rewrite length_app, length_map. split.
    + apply Forall_forall. intros l Hl.
      apply list_elem_of_In, in_seq in Hl. lia.
    + eapply Forall_impl; [exact Hprobes|]. cbn. intros l Hl. lia.
  - destruct (checkHealth usable (prog w)) as [issued|] eqn:Hc; [|done].
    apply checkHealth_ok in Hc as [-> _].
    injection Hs as <-. cbn. split; [done|]. by apply Forall_app.
  - destruct (probes w !! i) as [l|]; injection Hs as <-; [|done]. cbn.
    rewrite length_alter. split; [done|]. by apply Forall_delete.
  - destruct (handler clientId (prog w)) as [r st'] eqn:Hh.
    apply handler_frame in Hh as [Hheap Hsrv].
    destruct r as [[status body|t retry]|e]; [| |done];
      injection Hs as <-; cbn; by rewrite Hheap, Hsrv.
  - by injection Hs as <-.
  - destruct (inflight w !! j) as [[t retry]|]; [|by injection Hs as <-].
    destruct (on_proxy_error retry (prog w)) as [r st'] eqn:Hp.
    apply on_proxy_error_frame in Hp as [Hheap Hsrv].
    destruct r as [[status body|t' retry']|e]; [| |done];
      injection Hs as <-; cbn; by rewrite Hheap, Hsrv.
Qed.

Lemma reachable_well_formed w : reachable w -> well_formed w.
Proof.
  revert w. apply reachable_invariant.
  - intros input w0 Hb. apply boot_ok in Hb as (data & _ & ->).
    unfold well_formed. cbn. rewrite length_map. split; [|done].
    apply Forall_forall. intros l Hl.
    apply list_elem_of_In, in_seq in Hl. lia.
  - intros ev w w' IH Hs. by eapply wstep_well_formed.
Qed.

Lemma registry_total (h : list Backend) (ls : list nat) :
  Forall (fun l => l < length h) ls ->
  length (omap (fun l : nat => h !! l) ls) = length ls.
Proof.
  induction 1 as [|l ls Hl _ IH]; [done|]. cbn.
  destruct (lookup_lt_is_Some_2 h l Hl) as [b ->]. cbn. by rewrite IH.
Qed.

Lemma registry_alter {A} (g : Backend -> A) f i (h : list Backend)
    (ls : list nat) :
  (forall b, g (f b) = g b) ->
  map g (omap (fun l : nat => alter f i h !! l) ls) =
  map g (omap (fun l : nat => h !! l) ls).
Proof.
  intros Hg. induction ls as [|l ls IH]; [done|]. cbn.
  destruct (decide (i = l)) as [->|Hne].
  - rewrite list_lookup_alter_eq. destruct (h !! l) as [b|]; cbn; [|done].
    by rewrite Hg, IH.
  - rewrite list_lookup_alter_ne by done.
    destruct (h !! l) as [b|]; cbn; [|done]. by rewrite IH.
Qed.

(** X11.  In every state the process can reach, every reference of the
    registry points to a backend object, so the registry has one object
    per entry of the loaded list; and no callback other than the reload
    changes the registry's entries, their addresses or their regions:
    probes and requests only change runtime fields. *)
Theorem registry_changes_only_on_reload w :
  reachable w ->
  length (registry (prog w)) = length (servers (prog w)) /\
  (forall ev w',
     (forall input, ev <> Watch input) ->
     wstep ev w = Ok w' ->
     servers (prog w') = servers (prog w) /\
     map url (registry (prog w')) = map url (registry (prog w)) /\
     map region (registry (prog w')) = map region (registry (prog w))).
Proof.
  intros Hw. apply reachable_well_formed in Hw as [Hservers _].
  split; [by apply registry_total|].
  intros ev w' Hev Hs.
  destruct ev as [input|usable|i p|clientId|j|j]; cbn in Hs.
  - by destruct (Hev input).
  - destruct (checkHealth usable (prog w)); [|done].
    by injection Hs as <-.
  - destruct (probes w !! i) as [l|]; injection Hs as <-; [|done].
    unfold registry. cbn. split; [done|].
    split; apply registry_alter; intros b;
      [apply complete_url|apply complete_region].
  - destruct (handler clientId (prog w)) as [r st'] eqn:Hh.
    apply handler_frame in Hh as [Hheap Hsrv].
    destruct r as [[status body|t retry]|e]; [| |done];
      injection Hs as <-; cbn; by rewrite (registry_frame _ _ Hheap Hsrv).
  - by injection Hs as <-.
  - destruct (inflight w !! j) as [[t retry]|]; [|by injection Hs as <-].
    destruct (on_proxy_error retry (prog w)) as [r st'] eqn:Hp.
    apply on_proxy_error_frame in Hp as [Hheap Hsrv].
    destruct r as [[status body|t' retry']|e]; [| |done];
      injection Hs as <-; cbn; by rewrite (registry_frame _ _ Hheap Hsrv).
Qed.

Lemma reachable_step ev w w' :
  reachable w -> wstep ev w = Ok w' -> reachable w'.
Proof.
  intros (input & evs & w0 & Hb & Hr) Hs.
  exists input, (evs ++ [ev]), w0. split; [done|].
  clear Hb. revert w0 Hr. induction evs as [|e evs IH]; intros w0; cbn.
  - intros [= ->]. by rewrite Hs.
  - destruct (wstep e w0) as [w1|]; [apply IH|done].
Qed.

Lemma Probing_reachable : reachable Probing.world.
Proof.
  apply (reachable_step (Tick Shrink.usable) Shrink.world);
    [apply Shrink_reachable|]. vm_compute. reflexivity.
Qed.

Lemma not_Watch_ProbeDone i p : forall input, ProbeDone i p <> Watch input.
Proof. done. Qed.

Lemma registry_changes_only_on_reload_witness :
  reachable Probing.world /\
  wstep (ProbeDone 0 Shrink.down) Probing.world =
    Ok (mkWorld (probe_completes 0 Shrink.down Shrink.state) [1; 2] []) /\
  map url (registry (prog
    (mkWorld (probe_completes 0 Shrink.down Shrink.state) [1; 2] []))) =
    map url (registry (prog Probing.world)).
Proof.
  assert (Hs : wstep (ProbeDone 0 Shrink.down) Probing.world =
    Ok (mkWorld (probe_completes 0 Shrink.down Shrink.state) [1; 2] [])).
  { vm_compute. reflexivity. }
  split; [exact Probing_reachable|]. split; [exact Hs|].
  exact (proj1 (proj2
    (proj2 (registry_changes_only_on_reload _ Probing_reachable)
       (ProbeDone 0 Shrink.down) _ (not_Watch_ProbeDone 0 Shrink.down) Hs))).
Defined.

(** X12.  A probe that was issued before a reload and completes after it
    changes an object of the replaced registry only: in every state the
    process can reach, after the reload the completion of any pending
    probe leaves the new registry as it is, with every backend in its
    initial state. *)
Theorem stale_probe_leaves_new_registry w data w1 i p w2 :
  reachable w ->
  wstep (Watch (Descriptors data)) w = Ok w1 ->
  wstep (ProbeDone i p) w1 = Ok w2 ->
  registry (prog w2) = registry (prog w1) /\
  registry (prog w2) = map fresh_backend data /\
  Forall initial (registry (prog w2)).
Proof.
  intros Hw Hs1 Hs2. apply reachable_well_formed in Hw as [_ Hprobes].
  cbn in Hs1. injection Hs1 as <-. cbn in Hs2.
  assert (Hreg : registry (set_servers (seq (length (heap (prog w))) (length data))
                   (set_heap (heap (prog w) ++ map fresh_backend data) (prog w)))
                 = map fresh_backend data).
  { apply (registry_after_reload (prog w) data). }
  assert (Hsame : registry (prog w2) = registry
            (set_servers (seq (length (heap (prog w))) (length data))
               (set_heap (heap (prog w) ++ map fresh_backend data) (prog w)))).
  { destruct (probes w !! i) as [l|] eqn:Hl; injection Hs2 as <-; [|done].
    cbn [prog]. apply (stale_probe_invisible (prog w) data); [done|].
    exact (Forall_lookup_1 _ _ _ _ Hprobes Hl). }
  split; [done|]. rewrite Hsame, Hreg. split; [done|].
  apply Forall_fmap, Forall_true. intros s. apply fresh_backend_initial.
Qed.

Lemma stale_probe_leaves_new_registry_witness :
  reachable Probing.world /\
  wstep (Watch Shrink.config) Probing.world =
    Ok (mkWorld (snd (reload Shrink.config Shrink.state)) [0; 1; 2] []) /\
  wstep (ProbeDone 0 Shrink.up)
        (mkWorld (snd (reload Shrink.config Shrink.state)) [0; 1; 2] []) =
    Ok (mkWorld (probe_completes 0 Shrink.up
                   (snd (reload Shrink.config Shrink.state))) [1; 2] []) /\
  Forall initial
    (registry (prog (mkWorld (probe_completes 0 Shrink.up
                 (snd (reload Shrink.config Shrink.state))) [1; 2] []))).
Proof.
  assert (H1 : wstep (Watch Shrink.config) Probing.world =
    Ok (mkWorld (snd (reload Shrink.config Shrink.state)) [0; 1; 2] [])).
  { vm_compute. reflexivity. }
  assert (H2 : wstep (ProbeDone 0 Shrink.up)
        (mkWorld (snd (reload Shrink.config Shrink.state)) [0; 1; 2] []) =
    Ok (mkWorld (probe_completes 0 Shrink.up
                   (snd (reload Shrink.config Shrink.state))) [1; 2] [])).
  { vm_compute. reflexivity. }
  split; [exact Probing_reachable|]. split; [exact H1|]. split; [exact H2|].
  exact (proj2 (proj2
    (stale_probe_leaves_new_registry _ _ _ _ _ _ Probing_reachable H1 H2))).
Defined.

(** ** The two variants of the health check *)

(** X13.  The first variant of [checkHealth] (index.js) and the latest one
    do the same to a backend object on a transport error and on a response
    with a status in [200,300); on any other response they differ: the
    first variant marks the backend healthy and counts a success, the
    latest marks it down and counts a failure. *)
Theorem health_check_variants start now statusCode clock s :
  on_error clock s = Legacy.on_error clock s /\
  (is_2xx statusCode = true ->
   on_response start now statusCode clock s =
     Legacy.on_response start now clock s) /\
  (is_2xx statusCode = false ->
   healthy (on_response start now statusCode clock s) = false /\
   healthy (Legacy.on_response start now clock s) = true /\
   downtime (on_response start now statusCode clock s) = (downtime s + 1)%N /\
   uptime (Legacy.on_response start now clock s) = (uptime s + 1)%N /\
   history (on_response start now statusCode clock s) =
     shift_over_20 (history s ++ [down_marker]) /\
   history (Legacy.on_response start now clock s) =
     shift_over_20 (history s ++ [HNum (now - start)%Z])).
Proof.
  split; [reflexivity|]. split.
  - intros H. unfold on_response. rewrite H. reflexivity.
  - intros H. unfold on_response. rewrite H. by cbn.
Qed.

Lemma health_check_variants_witness :
  is_2xx 503 = false /\
  healthy (on_response 1000 1007 503 "10:00:00" Shrink.second) = false /\
  healthy (Legacy.on_response 1000 1007 "10:00:00" Shrink.second) = true.
Proof.
  assert (H : is_2xx 503 = false) by reflexivity.
  split; [exact H|].
  pose proof (proj2 (proj2
    (health_check_variants 1000 1007 503 "10:00:00" Shrink.second)) H)
    as (H1 & H2 & _).
  exact (conj H1 H2).
Defined.

(** ** Fingerprints *)

Lemma string_app_assoc (a b c : string) : (a +:+ b) +:+ c = a +:+ (b +:+ c).
Proof.
  induction a as [|x a IH]; [done|].
  change (String x ((a +:+ b) +:+ c) = String x (a +:+ (b +:+ c))).
  by rewrite IH.
Qed.





(** ** The path of the health probe *)

Lemma strip_trailing_slash_app p : strip_trailing_slash (p +:+ "/") = p.
Proof.
  induction p as [|c p IH]; [done|].
  change (String c p +:+ "/") with (String c (p +:+ "/")).
  cbn [strip_trailing_slash]. rewrite IH.
  destruct p; reflexivity.
Qed.

Lemma strip_trailing_slash_id p :
  (forall q, p <> q +:+ "/") -> strip_trailing_slash p = p.
Proof.
  induction p as [|c p IH]; [done|]. intros Hq. cbn [strip_trailing_slash].
  destruct p as [|c' p].
  - destruct (Ascii.eqb c "/") eqn:E; [|done].
    apply Ascii.eqb_eq in E. subst c. by destruct (Hq EmptyString).
  - rewrite IH; [done|]. intros q Hp. apply (Hq (String c q)).
    change (String c q +:+ "/") with (String c (q +:+ "/")). by rewrite Hp.
Qed.

(** X15.  The probe path is the base path with one trailing slash
    removed, followed by /healthz: a base path that ends with a slash and
    the same path without it give the same probe path, and a path that
    does not end with a slash is kept whole. *)
Theorem healthz_pathname_trims_one_slash p :
  healthz_pathname (p +:+ "/") = p +:+ "/healthz" /\
  ((forall q, p <> q +:+ "/") -> healthz_pathname p = p +:+ "/healthz") /\
  healthz_pathname (p +:+ "//") = p +:+ "//healthz".
Proof.
  unfold healthz_pathname. split; [by rewrite strip_trailing_slash_app|].
  split; [intros H; by rewrite strip_trailing_slash_id|].
  change "//" with ("/" +:+ "/"). rewrite <- string_app_assoc.
  rewrite strip_trailing_slash_app.
  rewrite string_app_assoc. reflexivity.
Qed.

(** ** Dashboard clients *)

Lemma sse_close_elem res (sseClients : list nat) client :
  client ∈ sse_close res sseClients <-> client ∈ sseClients /\ client <> res.
Proof.
  unfold sse_close.
  rewrite !list_elem_of_In, filter_In, negb_true_iff, Nat.eqb_neq. done.
Qed.

Lemma sse_close_absent res (sseClients : list nat) :
  res ∉ sseClients -> sse_close res sseClients = sseClients.
Proof.
  induction sseClients as [|c cs IH]; [done|]. intros Hnot.
  apply not_elem_of_cons in Hnot as [Hne Hnot]. cbn.
  assert (Hc : Nat.eqb c res = false) by (apply Nat.eqb_neq; congruence).
  rewrite Hc. cbn. f_equal. by apply IH.
Qed.

Lemma sse_close_app res (l1 l2 : list nat) :
  sse_close res (l1 ++ l2) = sse_close res l1 ++ sse_close res l2.
Proof. apply List.filter_app. Qed.

Lemma sse_close_self res : sse_close res [res] = [].
Proof. unfold sse_close. cbn. by rewrite Nat.eqb_refl. Qed.

(** X16.  Closing an event stream removes that client and no other, and
    keeps the order of the others: what is left is the list without the
    occurrences of the client, so that closing a client that stands
    between the clients [before] and the clients [later] leaves [before]
    followed by [later]; a client that connects and then closes leaves the
    list as it was; a publication writes one message to every connected
    client, in order, and each message is the registry as it is then. *)
Theorem sse_clients_are_tracked (res : nat) (sseClients : list nat) st :
  (res ∉ sse_close res sseClients) /\
  (forall client, client <> res ->
     (client ∈ sse_close res sseClients <-> client ∈ sseClients)) /\
  ((res ∉ sseClients) ->
   sse_close res (sse_connect res sseClients) = sseClients) /\
  map fst (sse_publish st (sse_connect res sseClients)) = sseClients ++ [res] /\
  Forall (fun m => snd m = registry st) (sse_publish st sseClients) /\
  sse_close res sseClients `sublist_of` sseClients /\
  (forall before later,
     sseClients = before ++ res :: later ->
     sse_close res sseClients = sse_close res before ++ sse_close res later) /\
  (forall before later,
     sseClients = before ++ res :: later ->
     res ∉ before -> res ∉ later ->
     sse_close res sseClients = before ++ later) /\
  (forall client before later,
     sseClients = before ++ client :: later -> client <> res ->
     sse_close res sseClients =
       sse_close res before ++ client :: sse_close res later).
Proof.
  split; [intros H; by apply sse_close_elem in H as [_ ?]|].
  split.
  { intros client Hne. rewrite sse_close_elem. split; [by intros [? _]|done]. }
  split; [|split; [|split; [|split; [|split; [|split]]]]].
  - intros Hnot. unfold sse_connect, sse_close. rewrite List.filter_app. cbn.
    rewrite Nat.eqb_refl. cbn. rewrite app_nil_r.
    by apply sse_close_absent.
  - unfold sse_publish. rewrite map_map. cbn. by rewrite map_id.
  - unfold sse_publish. apply Forall_fmap, Forall_true. done.
  - apply filter_sublist.
  - intros before later ->. change (res :: later) with ([res] ++ later).
    rewrite sse_close_app, (sse_close_app res [res] later), sse_close_self.
    done.
  - intros before later -> Hb Hl. change (res :: later) with ([res] ++ later).
    rewrite sse_close_app, (sse_close_app res [res] later), sse_close_self.
    by rewrite !sse_close_absent.
  - intros client before later -> Hne.
    change (client :: later) with ([client] ++ later).
    rewrite sse_close_app, (sse_close_app res [client] later).
    rewrite (sse_close_absent res [client]); [done|].
    intros ?%list_elem_of_singleton. congruence.
Qed.

(** Of the clients 1, 2, 3 the second closes: 1 and 3 are left, in that
    order. *)
Lemma sse_clients_are_tracked_witness :
  [1; 2; 3] = [1] ++ 2 :: [3] /\ (2 ∉ [1]) /\ (2 ∉ [3]) /\
  sse_close 2 [1; 2; 3] = [1] ++ [3].
Proof.
  assert (H1 : 2 ∉ [1]).
  { intros H. apply list_elem_of_In in H. cbn in H. lia. }
  assert (H3 : 2 ∉ [3]).
  { intros H. apply list_elem_of_In in H. cbn in H. lia. }
  split; [reflexivity|]. split; [exact H1|]. split; [exact H3|].
  exact (proj1 (proj2 (proj2 (proj2 (proj2 (proj2 (proj2 (proj2
    (sse_clients_are_tracked 2 [1; 2; 3] ABC.state))))))))
    [1] [3] eq_refl H1 H3).
Defined.

(** ** The latency graph *)

Lemma foldl_max_ge (vs : list HistEntry) : forall m,
  (m <= foldl (fun m x => Z.max m (to_number x)) m vs)%Z /\
  Forall (fun v => (to_number v <=
                    foldl (fun m x => Z.max m (to_number x)) m vs)%Z) vs.
Proof.
  induction vs as [|v vs IH]; intros m; cbn; [split; [lia|done]|].
  destruct (IH (Z.max m (to_number v))) as [Hm Hvs].
  split; [lia|]. constructor; [lia|done].
Qed.

Lemma math_max_upper values :
  Forall (fun v => (to_number v <= math_max values)%Z) values.
Proof.
  destruct values as [|v vs]; [done|]. cbn.
  destruct (foldl_max_ge vs (to_number v)) as [Hm Hvs]. by constructor.
Qed.

Lemma foldl_max_zero (vs : list HistEntry) :
  Forall (fun v => to_number v = 0%Z) vs ->
  foldl (fun m x => Z.max m (to_number x)) 0%Z vs = 0%Z.
Proof. induction 1 as [|v vs Hv _ IH]; [done|]. cbn. by rewrite Hv. Qed.

(** X17.  A backend that has not been probed, or whose probes have all
    failed, has no padding in its graph: the twenty blank slots of a new
    history are drawn as nothing at all, and a history of blanks followed
    by [k] failures is drawn as [k] middle dots. *)
Theorem graph_without_success n k :
  asciiGraph (replicate n HBlank ++ replicate k down_marker) =
    replicate k dot /\
  asciiGraph blank_history = [].
Proof.
  assert (H : forall n k,
    asciiGraph (replicate n HBlank ++ replicate k down_marker) =
      replicate k dot).
  { clear. intros n k.
    set (values := replicate n HBlank ++ replicate k down_marker).
    assert (Hzero : Forall (fun v => to_number v = 0%Z) values).
    { apply Forall_app. split; by apply Forall_replicate. }
    assert (Hmax : math_max values = 0%Z).
    { destruct values as [|v vs] eqn:E; [done|]. cbn.
      apply Forall_cons in Hzero as [-> Hvs]. by apply foldl_max_zero. }
    unfold asciiGraph. rewrite Hmax.
    destruct values as [|v vs] eqn:E.
    - destruct n, k; done.
    - rewrite <- E. subst values. rewrite map_app, concat_app.
      assert (Hb : concat (map (glyph 0) (replicate n HBlank)) = []).
      { clear. induction n; [done|]. cbn. done. }
      assert (Hd : concat (map (glyph 0) (replicate k down_marker)) =
                   replicate k dot).
      { clear. induction k as [|k IH]; [done|]. cbn. by rewrite IH. }
      by rewrite Hb, Hd. }
  split; [apply H|]. apply (H 20 0).
Qed.

Lemma glyph_in_range max v :
  (0 < max)%Z -> (0 <= to_number v <= max)%Z ->
  glyph max v =
    match v with
    | HNum 0 => [dot]
    | _ => [nth (Z.to_nat (to_number v * 8 / max)) chars 32%N]
    end /\
  (0 <= to_number v * 8 / max <= 8)%Z.
Proof.
  intros Hmax Hv.
  assert (Hidx : (0 <= to_number v * 8 / max <= 8)%Z).
  { split; [apply Z.div_pos; lia|].
    apply Z.div_le_upper_bound; lia. }
  split; [|done].
  assert (Hg : forall w, to_number w = to_number v ->
    (if (max =? 0)%Z then []
     else if (to_number w * 8 / max <? 0)%Z then []
     else match chars !! Z.to_nat (to_number w * 8 / max) with
          | Some c => [c]
          | None => []
          end) = [nth (Z.to_nat (to_number v * 8 / max)) chars 32%N]).
  { intros w ->. destruct (Z.eqb_spec max 0); [lia|].
    destruct (Z.ltb_spec (to_number v * 8 / max) 0); [lia|].
    assert (Hlt : Z.to_nat (to_number v * 8 / max) < length chars).
    { cbn. lia. }
    destruct (lookup_lt_is_Some_2 _ _ Hlt) as [c Hc]. rewrite Hc.
    f_equal. symmetry. by apply nth_lookup_Some with (d := 32%N). }
  destruct v as [|n]; [by apply Hg|].
  destruct n as [|q|q]; [done|by apply Hg|by apply Hg].
Qed.

Lemma concat_glyphs m (r : HistEntry -> N) (values : list HistEntry) :
  (forall v, v ∈ values -> glyph m v = [r v]) ->
  concat (map (glyph m) values) = map r values.
Proof.
  induction values as [|v vs IH]; intros H; [done|]. cbn.
  rewrite (H v) by apply list_elem_of_here. cbn. f_equal.
  apply IH. intros w Hw. apply H. by apply list_elem_of_further.
Qed.

(** X18.  When some latency of the history is positive and none is
    negative (all below 2^49, where the double quotient is exact enough),
    the graph has exactly one glyph per entry: a space for a blank slot, a
    middle dot for a 0, and for a latency [v] the glyph number
    [8 v / max], rounded down, of the nine; the largest latency is drawn
    as the full block. *)
Theorem graph_with_success values :
  (0 < math_max values < 2 ^ 49)%Z ->
  Forall (fun v => (0 <= to_number v)%Z) values ->
  asciiGraph values =
    map (fun v => match v with
                  | HNum 0 => dot
                  | _ => nth (Z.to_nat (to_number v * 8 / math_max values))
                             chars 32%N
                  end) values /\
  length (asciiGraph values) = length values /\
  (forall i, values !! i = Some HBlank -> asciiGraph values !! i = Some 32%N) /\
  (forall i, values !! i = Some (HNum (math_max values)) ->
             asciiGraph values !! i = Some 9608%N).
Proof.
  intros [Hmax _] Hpos.
  set (render := fun v => match v with
                  | HNum 0 => dot
                  | _ => nth (Z.to_nat (to_number v * 8 / math_max values))
                             chars 32%N
                  end).
  assert (Hg : forall v, v ∈ values -> glyph (math_max values) v = [render v]).
  { intros v Hv.
    assert (Hr : (0 <= to_number v <= math_max values)%Z).
    { split.
      - by apply (proj1 (Forall_forall _ _) Hpos).
      - by apply (proj1 (Forall_forall _ _) (math_max_upper values)). }
    destruct (glyph_in_range _ v Hmax Hr) as [-> _].
    unfold render. destruct v as [|[|q|q]]; reflexivity. }
  assert (Heq : asciiGraph values = map render values).
  { rewrite <- (concat_glyphs (math_max values) render values Hg).
    unfold asciiGraph. by destruct values. }
  split; [exact Heq|]. split; [by rewrite Heq, length_map|]. split.
  - intros i Hi. rewrite Heq, list_lookup_fmap, Hi. cbn.
    rewrite Z.div_0_l by lia. reflexivity.
  - intros i Hi. rewrite Heq, list_lookup_fmap, Hi.
    cbn [fmap option_fmap option_map]. f_equal. subst render. cbn beta.
    destruct (math_max values) as [|q|q] eqn:Em; [lia| |lia].
    cbn [to_number]. rewrite Z.mul_comm, Z.div_mul by lia. reflexivity.
Qed.

Lemma graph_with_success_witness :
  (0 < math_max [HBlank; HNum 0; HNum 5; HNum 10; HNum 3] < 2 ^ 49)%Z /\
  Forall (fun v => (0 <= to_number v)%Z)
         [HBlank; HNum 0; HNum 5; HNum 10; HNum 3] /\
  asciiGraph [HBlank; HNum 0; HNum 5; HNum 10; HNum 3] =
    [32; 183; 9604; 9608; 9602]%N.
Proof.
  assert (H1 : (0 < math_max [HBlank; HNum 0; HNum 5; HNum 10; HNum 3]
                < 2 ^ 49)%Z) by (vm_compute; split; reflexivity).
  assert (H2 : Forall (fun v => (0 <= to_number v)%Z)
                 [HBlank; HNum 0; HNum 5; HNum 10; HNum 3]).
  { repeat constructor; cbn; lia. }
  split; [exact H1|]. split; [exact H2|].
  exact (proj1 (graph_with_success _ H1 H2)).
Defined.

(** X19.  A probe that succeeds within the same millisecond cannot be told
    from a failed one on the display: the backend is marked healthy, but
    the entry pushed on its history is the down marker, drawn as a middle
    dot, and its response time of 0 is shown as a dash, as for a backend
    without response time. *)
Theorem zero_latency_looks_down start statusCode clock s :
  is_2xx statusCode = true ->
  let s' := on_response start start statusCode clock s in
  healthy s' = true /\
  responseTime s' = Some 0%Z /\
  last (history s') = Some down_marker /\
  last (history (on_error clock s)) = Some down_marker /\
  resp_cell (responseTime s') = resp_cell (responseTime (on_error clock s)) /\
  forall max, glyph max down_marker = [dot].
Proof.
  intros H s'.
  assert (Hlast : forall h x, last (shift_over_20 (h ++ [x])) = Some x).
  { clear. intros h x. unfold shift_over_20.
    destruct (Nat.ltb _ _) eqn:E.
    - destruct h as [|y h]; [done|]. cbn. by rewrite last_snoc.
    - by rewrite last_snoc. }
  subst s'. unfold on_response. rewrite H. cbn.
  rewrite Z.sub_diag. repeat split; try done; apply Hlast.
Qed.

Lemma zero_latency_looks_down_witness :
  is_2xx 200 = true /\
  healthy (on_response 1000 1000 200 "10:00:00" Shrink.second) = true /\
  resp_cell (responseTime (on_response 1000 1000 200 "10:00:00" Shrink.second))
    = inr "-".
Proof.
  assert (H : is_2xx 200 = true) by reflexivity.
  split; [exact H|].
  pose proof (zero_latency_looks_down 1000 200 "10:00:00" Shrink.second H)
    as (H1 & _ & _ & _ & H5 & _).
  split; [exact H1|]. exact H5.
Defined.

(** ** When a request fails with an exception *)

(** X20.  The handler throws exactly when the client has no usable sticky
    target and the cursor is at or beyond the size of a non-empty healthy
    subset.  The exception is then a TypeError and the state is left as it
    was, the cursor included, so the same request keeps failing until the
    health of the backends changes. *)
Theorem handler_throws_exactly_when clientId st :
  ((exists e st', handler clientId st = (Throw e, st')) <->
   truthy (getStickyServer clientId st) = false /\
   alive_servers st <> [] /\
   length (alive_servers st) <= index st) /\
  (forall e st',
     handler clientId st = (Throw e, st') -> e = TypeError /\ st' = st).
Proof.
  split; [split|].
  - intros (e & st' & Hh). unfold handler, resolveTarget in Hh.
    revert Hh. run.
    destruct (truthy (getStickyServer clientId st)) eqn:Hst; cbn.
    { rewrite Hst. by destruct (getStickyServer clientId st). }
    destruct (chooseServer st) as [[t|e1] st1] eqn:Hc.
    + destruct (truthy t) eqn:Ht; [destruct t as [u|]; [|done]|];
        unfold sticky_set, modify; cbn -[truthy]; rewrite Ht; done.
    + apply chooseServer_throw in Hc as (_ & _ & Hne & Hle). done.
  - intros (Hst & Hne & Hle). exists TypeError, st.
    unfold handler, resolveTarget. run. rewrite Hst. cbn.
    by rewrite (chooseServer_out_of_range _ Hne Hle).
  - intros e st' Hh.
    apply handler_inv in Hh as [[[? _]|[? _]]|[(u & ? & _)|[[= ->] ->]]];
      done.
Qed.
